(** * BtmonParser: the block parser and the device aggregator

    A shallow embedding of [src/btmonParser.py] (class [BtmonParser]):
    [_addDeviceRecord], the line loop of [parse] and the row construction
    of [report], together with the Python built-ins they call
    ([str.strip], [str.upper], [int], [float], [abs], [str], [list.sort]).

    Conventions.
    - A Python [str] is a [string]; the embedding is exact for code points
      below 128 (a character above is kept, is no whitespace and has no
      upper case).
    - A Python [int] is a [Z]; a Python [float] is a binary64 value of
      [spec_float], compared with [SFltb] (so a comparison with NaN is false).
    - [self.devices] is an insertion-ordered dict: an association list that
      is updated in place and extended at its end.
    - A method is a function from the dict before the call to an outcome
      (returned or raised) and the dict after the call. *)

From Stdlib Require Import ZArith NArith List String Ascii Bool Lia.
From Stdlib Require Import Floats.SpecFloat.
From Stdlib Require Import Sorting.Sorted Sorting.Permutation.
From Stdlib Require DecimalString.
Import ListNotations.

Local Open Scope string_scope.
Local Open Scope Z_scope.

(** ** Python strings *)

Module PyStr.

(** [str.isspace] on one character, which is also what [str.strip] and the
    regular-expression classes [\s] and [\S] look at. *)
Definition isspace (c : ascii) : bool :=
  let n := N_of_ascii c in
  ((9 <=? n) && (n <=? 13) || (28 <=? n) && (n <=? 32))%N.

Fixpoint lstrip (s : string) : string :=
  match s with
  | String c s' => if isspace c then lstrip s' else s
  | EmptyString => EmptyString
  end.

Fixpoint rstrip (s : string) : string :=
  match s with
  | String c s' =>
      match rstrip s' with
      | EmptyString => if isspace c then EmptyString else String c EmptyString
      | r => String c r
      end
  | EmptyString => EmptyString
  end.

Definition strip (s : string) : string := rstrip (lstrip s).

Definition upper_char (c : ascii) : ascii :=
  let n := N_of_ascii c in
  if ((97 <=? n) && (n <=? 122))%N then ascii_of_N (n - 32) else c.

Fixpoint upper (s : string) : string :=
  match s with
  | String c s' => String (upper_char c) (upper s')
  | EmptyString => EmptyString
  end.

(** Truth value of a string: [if s] and [if not s]. *)
Definition truthy (s : string) : bool :=
  match s with EmptyString => false | _ => true end.

Definition is_digit (c : ascii) : bool :=
  let n := N_of_ascii c in ((48 <=? n) && (n <=? 57))%N.

Definition digit_val (c : ascii) : Z := Z.of_N (N_of_ascii c) - 48.

(** [startswith p s] is the rest of [s] after the prefix [p]. *)
Fixpoint startswith (p s : string) : option string :=
  match p, s with
  | EmptyString, _ => Some s
  | String a p', String b s' =>
      if Ascii.eqb a b then startswith p' s' else None
  | String _ _, EmptyString => None
  end.

(** [str(n)] for an integer. *)
Definition of_int (n : Z) : string :=
  DecimalString.NilZero.string_of_int (Z.to_int n).

End PyStr.

(** ** Python number conversions *)

Module PyNum.
Import PyStr.

(** The whitespace that [int] and [float] skip at both ends of their
    argument, a [str] of code points below 128: tab, newline, vertical
    tab, form feed, carriage return and space, and not the separators 28
    to 31 that [str.strip] removes. *)
Definition isspace_c (c : ascii) : bool :=
  let n := N_of_ascii c in
  ((9 <=? n) && (n <=? 13) || (n =? 32))%N.

Fixpoint lstrip_c (s : string) : string :=
  match s with
  | String c s' => if isspace_c c then lstrip_c s' else s
  | EmptyString => EmptyString
  end.

Fixpoint rstrip_c (s : string) : string :=
  match s with
  | String c s' =>
      match rstrip_c s' with
      | EmptyString =>
          if isspace_c c then EmptyString else String c EmptyString
      | r => String c r
      end
  | EmptyString => EmptyString
  end.

Definition strip_c (s : string) : string := rstrip_c (lstrip_c s).

(** The greatest number of digits that [int] converts
    ([sys.int_max_str_digits], as the interpreter starts). *)
Definition max_str_digits : Z := 4300.

(** Underscores are dropped when they stand between two digits; anywhere
    else they make the literal invalid. [prev] is the character before. *)
Fixpoint drop_underscores (prev : ascii) (s : string) : option string :=
  match s with
  | EmptyString => if Ascii.eqb prev "_" then None else Some EmptyString
  | String c s' =>
      if Ascii.eqb c "_" then
        if is_digit prev then drop_underscores c s' else None
      else if Ascii.eqb prev "_" && negb (is_digit c) then None
      else option_map (String c) (drop_underscores c s')
  end.

(** Leading sign: [(negative, rest)]. *)
Definition split_sign (s : string) : bool * string :=
  match s with
  | String "-" s' => (true, s')
  | String "+" s' => (false, s')
  | _ => (false, s)
  end.

(** The longest prefix of digits, as (value, number of digits), and the
    rest. [acc] and [n] carry the digits read so far. *)
Fixpoint digits (acc : Z) (n : Z) (s : string) : Z * Z * string :=
  match s with
  | String c s' =>
      if is_digit c then digits (10 * acc + digit_val c) (n + 1) s'
      else (acc, n, s)
  | EmptyString => (acc, n, s)
  end.

(** [int(s)]: [None] stands for [ValueError], which is also what more
    digits than [max_str_digits] give. *)
Definition py_int (s : string) : option Z :=
  match drop_underscores "000"%char (strip_c s) with
  | None => None
  | Some t =>
      let '(neg, body) := split_sign t in
      match digits 0 0 body with
      | (v, n, EmptyString) =>
          if (0 <? n) && (n <=? max_str_digits)
          then Some (if neg then - v else v) else None
      | _ => None
      end
  end.

Definition float := spec_float.

Definition prec : Z := 53.
Definition emax : Z := 1024.

(** The binary64 value nearest to [m * 10 ^ e] (ties to even). *)
Definition of_decimal (neg : bool) (m : Z) (e : Z) : float :=
  match m with
  | Zpos p =>
      if 0 <=? e
      then binary_normalize prec emax
             ((if neg then Zneg p else Zpos p) * 10 ^ e) 0 false
      else SFdiv prec emax (S754_finite neg p 0)
             (S754_finite false (Z.to_pos (10 ^ (- e))) 0)
  | _ => S754_zero neg
  end.

(** The exponent part: [e] or [E], an optional sign, digits. *)
Definition exponent (s : string) : option Z :=
  match s with
  | EmptyString => Some 0
  | String c s' =>
      if Ascii.eqb (upper_char c) "E" then
        let '(neg, body) := split_sign s' in
        match digits 0 0 body with
        | (v, n, EmptyString) =>
            if 0 <? n then Some (if neg then - v else v) else None
        | _ => None
        end
      else None
  end.

(** A decimal literal without its sign. *)
Definition decimal (neg : bool) (s : string) : option float :=
  let '(i, ni, r) := digits 0 0 s in
  let '(m, nf, r') :=
    match r with
    | String "." f => let '(m, nf, r') := digits i 0 f in (m, nf, r')
    | _ => (i, 0, r)
    end in
  if 0 <? ni + nf then
    match exponent r' with
    | Some e => Some (of_decimal neg m (e - nf))
    | None => None
    end
  else None.

(** [float(s)]: [None] stands for [ValueError]. *)
Definition py_float (s : string) : option float :=
  match drop_underscores "000"%char (strip_c s) with
  | None => None
  | Some t =>
      let '(neg, body) := split_sign t in
      let u := upper body in
      if String.eqb u "INF" || String.eqb u "INFINITY"
      then Some (S754_infinity neg)
      else if String.eqb u "NAN" then Some S754_nan
      else decimal neg body
  end.

Definition flt (x y : float) : bool := SFltb x y.
Definition fle (x y : float) : bool := SFleb x y.
Definition is_nan (x : float) : bool :=
  match x with S754_nan => true | _ => false end.

(** A float that is no NaN has a place in the lexicographic order of
    triples of integers, and [SFcompare] compares the places. *)
Definition place (x : float) : Z * Z * Z :=
  match x with
  | S754_infinity true => (-2, 0, 0)
  | S754_finite true m e => (-1, - e, Zneg m)
  | S754_zero _ => (0, 0, 0)
  | S754_nan => (0, 0, 0)
  | S754_finite false m e => (1, e, Zpos m)
  | S754_infinity false => (2, 0, 0)
  end.

Definition before (p q : Z * Z * Z) : Prop :=
  let '(a, b, c) := p in
  let '(a', b', c') := q in
  a < a' \/ (a = a' /\ (b < b' \/ (b = b' /\ c < c'))).

Definition number (x : float) : Prop := is_nan x = false.

End PyNum.

(** ** The device aggregator *)

Module Aggregator.
Import PyStr PyNum.

(** The value stored under a MAC address: the dict literal of
    [_addDeviceRecord]. *)
Record device := Device {
  firstTime : float;
  lastTime : float;
  name : string;
  manufacturer : string;
  rssi : Z
}.

(** [self.devices], in insertion order. *)
Definition devices := list (string * device).

(** [self.devices[mac]], and [mac in self.devices] when it is [Some]. *)
Fixpoint lookup (mac : string) (d : devices) : option device :=
  match d with
  | [] => None
  | (k, v) :: d' => if String.eqb mac k then Some v else lookup mac d'
  end.

(** [self.devices[mac] = v]: an existing key keeps its place. *)
Fixpoint store (mac : string) (v : device) (d : devices) : devices :=
  match d with
  | [] => [(mac, v)]
  | (k, w) :: d' =>
      if String.eqb mac k then (k, v) :: d' else (k, w) :: store mac v d'
  end.

Definition keys (d : devices) : list string := map fst d.

(** Outcome of a call, and the monad of methods of the parser object. *)
Inductive exn := ValueError.

Inductive outcome (A : Type) :=
| Returned (a : A)
| Raised (e : exn).
Arguments Returned {A} a.
Arguments Raised {A} e.

Definition M (S A : Type) := S -> outcome A * S.

Definition ret {S A} (a : A) : M S A := fun s => (Returned a, s).
Definition raise {S A} (e : exn) : M S A := fun s => (Raised e, s).
Definition bind {S A B} (m : M S A) (f : A -> M S B) : M S B :=
  fun s =>
    match m s with
    | (Returned a, s') => f a s'
    | (Raised e, s') => (Raised e, s')
    end.
Definition modify {S} (f : S -> S) : M S unit := fun s => (Returned tt, f s).
Definition read {S} : M S S := fun s => (Returned s, s).

(** A conversion that raises [ValueError] when it has no value. *)
Definition convert {S A} (o : option A) : M S A :=
  match o with Some a => ret a | None => raise ValueError end.

Declare Scope py_scope.
Delimit Scope py_scope with py.
Notation "x <- m ;; k" := (bind m (fun x => k))
  (at level 61, m at next level, right associativity) : py_scope.
Notation "m ;; k" := (bind m (fun _ => k))
  (at level 61, right associativity) : py_scope.

Definition fgt (x y : float) : bool :=
  match SFcompare x y with Some Gt => true | _ => false end.

(** The branch [if mac in self.devices], statement by statement, on the
    stored value. *)
Definition update_times (t : float) (r : device) : device :=
  if flt t (firstTime r) then
    Device t (lastTime r) (name r) (manufacturer r) (rssi r)
  else if fgt t (lastTime r) then
    Device (firstTime r) t (name r) (manufacturer r) (rssi r)
  else r.

Definition update_name (n : string) (r : device) : device :=
  if negb (truthy (name r)) then
    Device (firstTime r) (lastTime r) n (manufacturer r) (rssi r)
  else r.

Definition update_manufacturer (m : string) (r : device) : device :=
  if negb (truthy (manufacturer r)) then
    Device (firstTime r) (lastTime r) (name r) m (rssi r)
  else r.

Definition update_rssi (x : Z) (r : device) : device :=
  if Z.abs x <? Z.abs (rssi r) then
    Device (firstTime r) (lastTime r) (name r) (manufacturer r) x
  else r.

Definition update (t : float) (n m : string) (x : Z) (r : device) : device :=
  update_rssi x (update_manufacturer m (update_name n (update_times t r))).

Definition normalise (mac : string) : string := upper (strip mac).

Definition rssi_of (s : string) : option Z :=
  if truthy s then py_int s else Some 5000.

Local Open Scope py_scope.

Definition _addDeviceRecord (timestamp mac name manufacturer rssi : string)
  : M devices unit :=
  let mac := normalise mac in
  if negb (truthy mac) then ret tt
  else
    timestamp <- convert (py_float timestamp) ;;
    rssi <- convert (rssi_of rssi) ;;
    d <- read ;;
    match lookup mac d with
    | Some r =>
        modify (store mac (update timestamp name manufacturer rssi r))
    | None =>
        modify (store mac (Device timestamp timestamp name manufacturer rssi))
    end.

(** A candidate record: the five arguments of a call. *)
Record candidate := Candidate {
  c_timestamp : string;
  c_mac : string;
  c_name : string;
  c_manufacturer : string;
  c_rssi : string
}.

Definition merge (c : candidate) : M devices unit :=
  _addDeviceRecord (c_timestamp c) (c_mac c) (c_name c)
                   (c_manufacturer c) (c_rssi c).

(** The calls for a list of candidates, one after the other; the first
    one that raises ends the run. *)
Fixpoint merge_all (cs : list candidate) : M devices unit :=
  match cs with
  | [] => ret tt
  | c :: cs' => merge c ;; merge_all cs'
  end.

Definition exec {S A} (m : M S A) (s : S) : S := snd (m s).
Definition returns {S A} (m : M S A) (s : S) : Prop :=
  exists a, fst (m s) = Returned a.

(** What a call that gets past both conversions leaves under the key. *)
Definition merged (t : float) (n m : string) (x : Z) (o : option device)
  : device :=
  match o with
  | Some r => update t n m x r
  | None => Device t t n m x
  end.

(** The dicts the parser object can hold: empty at first, then changed by
    calls of the method only. *)
Inductive reachable : devices -> Prop :=
| reachable_init : reachable []
| reachable_merge d c : reachable d -> reachable (exec (merge c) d).

(** A candidate as the method reads it: its timestamp as a float, its rssi
    as an integer (5000 for the empty string). *)
Record sample := Sample {
  s_time : float;
  s_name : string;
  s_manufacturer : string;
  s_rssi : Z
}.


Definition absorb (r : device) (p : sample) : device :=
  update (s_time p) (s_name p) (s_manufacturer p) (s_rssi p) r.




(** The first non-empty string of a sequence, or the empty string. *)
Fixpoint first_truthy (l : list string) : string :=
  match l with
  | [] => ""
  | s :: l' => if truthy s then s else first_truthy l'
  end.

(** The ends of a stored interval are not the wrong way round. *)
Definition ordered (r : device) : Prop :=
  flt (lastTime r) (firstTime r) = false.

(** [firstTime <= lastTime] on every stored value. *)
Definition bounded (d : devices) : Prop :=
  forall k r, lookup k d = Some r -> fle (firstTime r) (lastTime r) = true.


End Aggregator.

(** ** The block parser *)

Module Parser.
Import PyStr PyNum Aggregator.
Local Open Scope py_scope.

Definition newline : ascii := "010"%char.
Definition carriage_return : ascii := "013"%char.

(** Text mode with universal newlines: [\r\n] and [\r] are read as [\n]. *)
Fixpoint universal_newlines (s : string) : string :=
  match s with
  | String c s' =>
      if Ascii.eqb c carriage_return then
        String newline
          match s' with
          | String c' s'' =>
              if Ascii.eqb c' newline then universal_newlines s''
              else universal_newlines s'
          | EmptyString => EmptyString
          end
      else String c (universal_newlines s')
  | EmptyString => EmptyString
  end.

(** The lines of a text, each with its newline when it has one. *)
Fixpoint split_lines (s : string) : list string :=
  match s with
  | String c s' =>
      if Ascii.eqb c newline then String c EmptyString :: split_lines s'
      else match split_lines s' with
           | l :: ls => String c l :: ls
           | [] => [String c EmptyString]
           end
  | EmptyString => []
  end.

(** [f.readlines()] on the decoded text of the file. *)
Definition readlines (text : string) : list string :=
  split_lines (universal_newlines text).

(** *** The regular expressions

    A pattern is matched by a function of the rest of the subject that
    gives the value of the match; the rest of a pattern is its argument,
    so that a lazy quantifier can try it after each extension. *)

Definition matcher (A : Type) := string -> option A.

(** A literal, then [k]. *)
Definition lit {A} (p : string) (k : matcher A) : matcher A :=
  fun s => match startswith p s with Some r => k r | None => None end.

(** [(.+?)] then [k]: the group and the value of [k]. *)
Fixpoint lazy_dot {A} (k : matcher A) (s : string) : option (string * A) :=
  match s with
  | EmptyString => None
  | String c s' =>
      if Ascii.eqb c newline then None
      else match k s' with
           | Some a => Some (String c EmptyString, a)
           | None =>
               match lazy_dot k s' with
               | Some (x, a) => Some (String c x, a)
               | None => None
               end
           end
  end.

(** [$]: the end of the subject, or the newline that ends it. *)
Definition eol : matcher unit :=
  fun s =>
    match s with
    | EmptyString => Some tt
    | String c EmptyString => if Ascii.eqb c newline then Some tt else None
    | _ => None
    end.

(** The end of a pattern: whatever follows is not looked at. *)
Definition done : matcher unit := fun _ => Some tt.

(** [re.search]: the first position at which the pattern matches. *)
Fixpoint search {A} (k : matcher A) (s : string) : option A :=
  match k s with
  | Some a => Some a
  | None =>
      match s with
      | String _ s' => search k s'
      | EmptyString => None
      end
  end.

(** [re.match(r'^\S', line)]. *)
Definition re_boundary (line : string) : bool :=
  match line with
  | String c _ => negb (isspace c)
  | EmptyString => false
  end.

(** [re.search(r'] (.+?)$', line)], group 1. *)
Definition re_timestamp (line : string) : option string :=
  option_map fst (search (lit "] " (lazy_dot eol)) line).

(** [re.match(r'^((LE )|(BR/EDR ))?Address: (.+?) ', line)], group 4. *)
Definition re_address (line : string) : option string :=
  let rest := lit "Address: " (lazy_dot (lit " " done)) in
  option_map fst
    match lit "LE " rest line with
    | Some m => Some m
    | None =>
        match lit "BR/EDR " rest line with
        | Some m => Some m
        | None => rest line
        end
    end.

(** [re.match(r'^Name \(complete\): (.+?)$', line)], group 1. *)
Definition re_name (line : string) : option string :=
  option_map fst (lit "Name (complete): " (lazy_dot eol) line).

(** [re.match(r'^Company: (.+?) \((.+?)\)$', line)], group 1. *)
Definition re_company (line : string) : option string :=
  option_map fst
    (lit "Company: " (lazy_dot (lit " (" (lazy_dot (lit ")" eol)))) line).

(** [re.match(r'^RSSI: (.+?) dBm', line)], group 1. *)
Definition re_rssi (line : string) : option string :=
  option_map fst (lit "RSSI: " (lazy_dot (lit " dBm" done)) line).

(** *** The line loop *)

(** The five local variables of [parse]. *)
Record accumulators := Accumulators {
  timestamp : string;
  mac : string;
  name : string;
  manufacturer : string;
  rssi : string
}.

Definition empty : accumulators := Accumulators "" "" "" "" "".

(** The [else] branch of the loop body: the first pattern that matches
    sets its variable. *)
Definition detail (line : string) (a : accumulators) : accumulators :=
  let line := lstrip line in
  match re_address line with
  | Some v => Accumulators (timestamp a) v (name a) (manufacturer a) (rssi a)
  | None =>
  match re_name line with
  | Some v => Accumulators (timestamp a) (mac a) v (manufacturer a) (rssi a)
  | None =>
  match re_company line with
  | Some v => Accumulators (timestamp a) (mac a) (name a) v (rssi a)
  | None =>
  match re_rssi line with
  | Some v => Accumulators (timestamp a) (mac a) (name a) (manufacturer a) v
  | None => a
  end end end end.

(** The variables after a boundary line. *)
Definition header (line : string) : accumulators :=
  match re_timestamp line with
  | Some v => Accumulators v "" "" "" ""
  | None => empty
  end.

Section Loop.

(** The loop is written over the method it calls, so that the calls can be
    observed: [record] stands for [self._addDeviceRecord]. *)
Context {S : Type}.
Variable record : string -> string -> string -> string -> string -> M S unit.

(** One iteration of [for line in f.readlines()]. *)
Definition step (line : string) (a : accumulators) : M S accumulators :=
  let line := rstrip line in
  if re_boundary line then
    record (timestamp a) (mac a) (name a) (manufacturer a) (rssi a) ;;
    ret (header line)
  else ret (detail line a).

Fixpoint loop (lines : list string) (a : accumulators) : M S unit :=
  match lines with
  | [] => ret tt
  | line :: lines' => a' <- step line a ;; loop lines' a'
  end.

Definition parse_with (lines : list string) : M S unit := loop lines empty.

End Loop.

(** [parse] on the lines of the file. *)
Definition parse_lines (lines : list string) : M devices unit :=
  parse_with _addDeviceRecord lines.

(** [parse] on the decoded text of the file. *)
Definition parse (text : string) : M devices unit :=
  parse_lines (readlines text).

(** *** Observing the calls *)

(** A boundary line: the test of the loop on the stripped line. *)
Definition is_boundary (line : string) : bool := re_boundary (rstrip line).

Definition boundaries (lines : list string) : list string :=
  filter is_boundary lines.

(** The five variables after one more line, and after a list of lines
    read from the start of the file. *)
Definition after_line (a : accumulators) (line : string) : accumulators :=
  if is_boundary line then header (rstrip line) else detail (rstrip line) a.

Definition gathered (lines : list string) : accumulators :=
  fold_left after_line lines empty.

Definition flush (a : accumulators) : candidate :=
  Candidate (timestamp a) (mac a) (name a) (manufacturer a) (rssi a).

(** [_addDeviceRecord] with a log of its calls: a call is logged with its
    arguments whether it returns or raises. *)
Definition traced (t mac n m x : string) : M (devices * list candidate) unit :=
  fun s =>
    let '(o, d') := _addDeviceRecord t mac n m x (fst s) in
    (o, (d', (snd s ++ [Candidate t mac n m x])%list)).

(** The calls that [parse] makes on the lines of a file. *)
Definition calls (lines : list string) (d : devices) : list candidate :=
  snd (exec (parse_with traced lines) (d, [])).

(** The candidates of the boundary lines of [lines], read with the
    variables [a] at the start. *)
Fixpoint flushes (a : accumulators) (lines : list string) : list candidate :=
  match lines with
  | [] => []
  | line :: lines' =>
      if is_boundary line then flush a :: flushes (after_line a line) lines'
      else flushes (after_line a line) lines'
  end.

End Parser.

(** ** The report *)

Module Report.
Import PyStr PyNum Aggregator.

(** The last item of a row: the stored integer or a string. *)
Inductive cell :=
| Int (n : Z)
| Str (s : string).

(** A replacement field of an f-string. *)
Definition format (c : cell) : string :=
  match c with
  | Int n => of_int n
  | Str s => s
  end.

(** The list [row] of the loop in [report]: item 0 is the MAC address, item
    -1 the displayed signal strength. *)
Record row := Row {
  r_mac : string;
  r_firstTime : float;
  r_lastTime : float;
  r_name : string;
  r_manufacturer : string;
  r_rssi : cell
}.

Definition row_of (mac : string) (r : device) : row :=
  Row mac (firstTime r) (lastTime r)
    (if truthy (name r) then name r else mac)
    (if truthy (manufacturer r) then manufacturer r else "Unknown")
    (if 255 <? Z.abs (rssi r) then Str "Unknown" else Int (rssi r)).

(** [for mac in self.devices.keys(): ... rows.append(row)]. *)
Definition rows (d : devices) : list row :=
  flat_map
    (fun mac =>
       match lookup mac d with
       | Some r => [row_of mac r]
       | None => []
       end)
    (keys d).

(** [lambda x: f"{x[-1]} {x[0]}"]. *)
Definition sort_key (x : row) : string :=
  format (r_rssi x) ++ " " ++ r_mac x.

(** [list.sort(key=...)]: ascending in the order of [str], and stable. *)
Fixpoint insert (x : row) (l : list row) : list row :=
  match l with
  | [] => [x]
  | y :: l' =>
      if (sort_key x <=? sort_key y)%string then x :: l
      else y :: insert x l'
  end.

Definition sort (l : list row) : list row := fold_right insert [] l.

(** The table that [report] hands to [tabulate], or [None] when it returns
    at [if not self.devices]. Whether the file is then written depends on
    the file system and on the answer of the user, which are not modelled. *)
Definition report_rows (d : devices) : option (list row) :=
  match d with
  | [] => None
  | _ => Some (sort (rows d))
  end.

(** The order of the sort keys. *)
Definition key_le (x y : row) : Prop :=
  (sort_key x <=? sort_key y)%string = true.

End Report.

(** ** The prompt, the decision to write and the summary *)

Module Driver.
Import PyStr PyNum Aggregator.

(** [str.lower], for code points below 128. *)
Definition lower_char (c : ascii) : ascii :=
  let n := N_of_ascii c in
  if ((65 <=? n) && (n <=? 90))%N then ascii_of_N (n + 32) else c.

Fixpoint lower (s : string) : string :=
  match s with
  | String c s' => String (lower_char c) (lower s')
  | EmptyString => EmptyString
  end.

(** [c in s] for a character, and [s.isspace() or not s]. *)
Definition contains_char (c : ascii) (s : string) : bool :=
  existsb (Ascii.eqb c) (list_ascii_of_string s).

(** [p in s] for two strings: [p] starts at some position of [s]. *)
Fixpoint contains (p s : string) : bool :=
  match startswith p s with
  | Some _ => true
  | None =>
      match s with
      | String _ s' => contains p s'
      | EmptyString => false
      end
  end.

Definition all_space (s : string) : bool :=
  forallb isspace (list_ascii_of_string s).

(** What a call of [_yesNo] comes to: an answer, the [EOFError] of [input]
    when no line is left, or the [RecursionError] of the interpreter when
    the calls are nested too deep. *)
Inductive answered :=
| Answer (yes : bool)
| Eof
| Too_deep.

(** [_yesNo]: the lines that [input] will return are the argument, and the
    lines left are returned with the answer. The method calls itself after
    a line that is neither [y] nor [n]; [frames] is the number of nested
    calls that the interpreter still allows. *)
Fixpoint _yesNo (frames : nat) (answers : list string)
  : answered * list string :=
  match frames with
  | O => (Too_deep, answers)
  | S frames' =>
      match answers with
      | [] => (Eof, [])
      | yn :: rest =>
          if String.eqb (lower yn) "y" then (Answer true, rest)
          else if String.eqb (lower yn) "n" then (Answer false, rest)
          else _yesNo frames' rest
      end
  end.

(** What a call of [report] comes to. *)
Inductive reported :=
| Nothing_to_report
| Declined
| Written (headings : list string) (table : list Report.row)
| Failed (why : answered).

Definition headings : list string :=
  ["MAC Address"; "First Time"; "Last Time"; "Common Name"; "Manufacturer";
   "RSSI"].

(** [report], up to the call of [tabulate]: [file_exists] is the answer of
    [outFile.exists()] and [overwrite] the argument of that name. Opening
    and writing the file are taken to succeed. *)
Definition report (d : devices) (file_exists overwrite : bool)
  (frames : nat) (answers : list string) : reported * list string :=
  match d with
  | [] => (Nothing_to_report, answers)
  | _ =>
      if file_exists && negb overwrite then
        match _yesNo frames answers with
        | (Answer true, rest) =>
            (Written headings (Report.sort (Report.rows d)), rest)
        | (Answer false, rest) => (Declined, rest)
        | (why, rest) => (Failed why, rest)
        end
      else (Written headings (Report.sort (Report.rows d)), answers)
  end.

(** [summarise]. *)
Definition summarise (d : devices) : string :=
  "Total bluetooth devices identified: " ++ of_int (Z.of_nat (List.length d)).

(** The loop of [main] over the input files, each given by its text. *)
Fixpoint parse_files (texts : list string) : M devices unit :=
  match texts with
  | [] => ret tt
  | text :: texts' => bind (Parser.parse text) (fun _ => parse_files texts')
  end.

(** The addresses of a list of candidates that make a record. *)
Definition addresses (cs : list candidate) : list string :=
  filter truthy (map (fun c => normalise (c_mac c)) cs).

(** The candidates that the boundary lines of the files flush, file after
    file. *)
Definition candidates_of (texts : list string) : list candidate :=
  flat_map (fun t => Parser.flushes Parser.empty (Parser.readlines t)) texts.

(** A line is not empty and has its only newline, when it has one, as its
    last character. *)
Definition line_shaped (l : string) : Prop :=
  exists body, contains_char Parser.newline body = false /\
               ((l = body /\ body <> "") \/
                l = body ++ String Parser.newline "").

(** A candidate that a dict has taken in: blank, or read by the method and
    with nothing left to change in the record of its address. *)
Definition absorbed (c : candidate) (d : devices) : Prop :=
  normalise (c_mac c) = "" \/
  exists t x r,
    py_float (c_timestamp c) = Some t /\
    rssi_of (c_rssi c) = Some x /\
    lookup (normalise (c_mac c)) d = Some r /\
    flt t (firstTime r) = false /\
    fgt t (lastTime r) = false /\
    (truthy (name r) = true \/ c_name c = "") /\
    (truthy (manufacturer r) = true \/ c_manufacturer c = "") /\
    (Z.abs x <? Z.abs (rssi r)) = false.

End Driver.

(** * Properties *)

(** ** The model on concrete inputs *)

Module Examples.
Import PyStr PyNum Aggregator.

Example strip_upper : normalise "  aa:bb:cc:dd:ee:ff " = "AA:BB:CC:DD:EE:FF".
Proof. reflexivity. Qed.

Example int_literals :
  map py_int ["-67"; " +5 "; "1_000"; ""; "-"; "4.5"; "1__0"; "loud"] =
  [Some (-67); Some 5; Some 1000; None; None; None; None; None].
Proof. reflexivity. Qed.

Example float_literals :
  map py_float ["0.5"; "-2"; "1e400"; "-inf"; "NaN"; ""; "soon"; "."] =
  [Some (S754_finite false 4503599627370496 (-53));
   Some (S754_finite true 4503599627370496 (-51));
   Some (S754_infinity false); Some (S754_infinity true); Some S754_nan;
   None; None; None].
Proof. reflexivity. Qed.

(** The separators 28 to 31 are stripped from an address, and make a
    timestamp or an rssi unreadable. *)
Example separators :
  normalise (String "028" "aa" ++ String "031" "") = "AA" /\
  py_float (String "028" "12.5") = None /\
  py_float (String "011" "12.5" ++ String "012" "") <> None /\
  py_int ("-67" ++ String "029" "") = None /\
  py_int (String "009" "-67" ++ String "013" "") = Some (-67).
Proof. repeat split; vm_compute; discriminate. Qed.

Example float_nearest :
  py_float "0.1" = Some (S754_finite false 7205759403792794 (-56)).
Proof. reflexivity. Qed.

Example nan_compares_false :
  (flt S754_nan S754_nan, fle S754_nan S754_nan, fgt S754_nan S754_nan) =
  (false, false, false).
Proof. reflexivity. Qed.

Example patterns :
  Parser.re_timestamp "> HCI Event: LE Meta Event (0x3e) #5 [hci0] 12.5" =
    Some "12.5" /\
  Parser.re_timestamp "Bluetooth monitor ver 5.64" = None /\
  Parser.re_address "LE Address: AA:BB:CC:DD:EE:FF (public)" =
    Some "AA:BB:CC:DD:EE:FF" /\
  Parser.re_address "Address: AA:BB:CC:DD:EE:FF" = None /\
  Parser.re_name "Name (complete): Test Device" = Some "Test Device" /\
  Parser.re_company "Company: Apple, Inc. (76)" = Some "Apple, Inc." /\
  Parser.re_rssi "RSSI: -67 dBm (0xbd)" = Some "-67".
Proof. repeat split. Qed.

(** Two blocks for one device, the second with the address in lower case
    and a stronger signal; a last boundary line flushes the second. *)
Example two_blocks :
  Parser.parse_lines
    ["> HCI Event: LE Meta Event (0x3e) plen 43   #1 [hci0] 12.5";
     "        Address: AA:BB:CC:DD:EE:FF (public)";
     "        RSSI: -67 dBm (0xbd)";
     "        Name (complete): TestDevice";
     "> HCI Event: LE Meta Event (0x3e) plen 43   #2 [hci0] 13.5";
     "        Address: aa:bb:cc:dd:ee:ff (public)";
     "        RSSI: -50 dBm (0xce)";
     "> HCI Event: Disconnect Complete (0x05) plen 4   #3 [hci0] 14.5"] [] =
  (Returned tt,
   [("AA:BB:CC:DD:EE:FF",
     Device (S754_finite false 7036874417766400 (-49))
       (S754_finite false 7599824371187712 (-49)) "TestDevice" "" (-50))]).
Proof. reflexivity. Qed.

End Examples.

(** ** The order of floats *)

Module FloatOrder.
Import PyNum Aggregator.

Ltac compare_cases :=
  repeat match goal with
    | |- context [Z.compare ?a ?b] => destruct (Z.compare_spec a b)
    | |- context [Pos.compare_cont Eq ?a ?b] =>
        change (Pos.compare_cont Eq a b) with (Pos.compare a b);
        destruct (Pos.compare_spec a b)
    end.

Lemma compare_place x y :
  number x -> number y ->
  exists c, SFcompare x y = Some c /\
    (c = Lt <-> before (place x) (place y)) /\
    (c = Eq <-> place x = place y) /\
    (c = Gt <-> before (place y) (place x)).
Proof.
  unfold number.
  destruct x as [[|]|[|]| |[|] m e], y as [[|]|[|]| |[|] m' e'];
    simpl; intros Hx Hy; try discriminate;
    compare_cases; simpl; eexists; (split; [reflexivity|]);
    repeat split; intros Hc; try discriminate; try lia;
    try (injection Hc; intros; lia); try (repeat f_equal; lia).
Qed.

Lemma compare_nan x y :
  is_nan x = true \/ is_nan y = true -> SFcompare x y = None.
Proof. destruct x, y; simpl; intros [H | H]; congruence. Qed.

Lemma flt_place x y :
  flt x y = true <-> number x /\ number y /\ before (place x) (place y).
Proof.
  unfold flt, SFltb. split.
  - destruct (is_nan x) eqn:Hx; [rewrite compare_nan by auto; discriminate|].
    destruct (is_nan y) eqn:Hy; [rewrite compare_nan by auto; discriminate|].
    destruct (compare_place x y Hx Hy) as (c & -> & Hlt & _).
    destruct c; try discriminate. intros _. repeat split; tauto.
  - intros (Hx & Hy & Hb).
    destruct (compare_place x y Hx Hy) as (c & -> & Hlt & _).
    apply Hlt in Hb. now subst.
Qed.

Lemma fgt_place x y :
  fgt x y = true <-> number x /\ number y /\ before (place y) (place x).
Proof.
  unfold fgt. split.
  - destruct (is_nan x) eqn:Hx; [rewrite compare_nan by auto; discriminate|].
    destruct (is_nan y) eqn:Hy; [rewrite compare_nan by auto; discriminate|].
    destruct (compare_place x y Hx Hy) as (c & -> & _ & _ & Hgt).
    destruct c; try discriminate. intros _. repeat split; tauto.
  - intros (Hx & Hy & Hb).
    destruct (compare_place x y Hx Hy) as (c & -> & _ & _ & Hgt).
    apply Hgt in Hb. now subst.
Qed.

Lemma fle_place x y :
  fle x y = true <->
  number x /\ number y /\ (before (place x) (place y) \/ place x = place y).
Proof.
  unfold fle, SFleb. split.
  - destruct (is_nan x) eqn:Hx; [rewrite compare_nan by auto; discriminate|].
    destruct (is_nan y) eqn:Hy; [rewrite compare_nan by auto; discriminate|].
    destruct (compare_place x y Hx Hy) as (c & -> & Hlt & Heq & _).
    destruct c; try discriminate; intros _; repeat split; tauto.
  - intros (Hx & Hy & Hb).
    destruct (compare_place x y Hx Hy) as (c & -> & Hlt & Heq & _).
    destruct Hb as [Hb | Hb]; [apply Hlt in Hb | apply Heq in Hb]; now subst.
Qed.

Ltac places :=
  repeat match goal with
    | H : flt _ _ = true |- _ => apply flt_place in H
    | H : fgt _ _ = true |- _ => apply fgt_place in H
    | H : fle _ _ = true |- _ => apply fle_place in H
    | H : _ /\ _ |- _ => destruct H
    | |- flt _ _ = true => apply flt_place
    | |- fgt _ _ = true => apply fgt_place
    | |- fle _ _ = true => apply fle_place
    end.

Ltac order :=
  repeat match goal with
    | H : context [place ?x] |- _ =>
        let a := fresh "a" in let b := fresh "b" in let c := fresh "c" in
        destruct (place x) as [[a b] c]
    | |- context [place ?x] =>
        let a := fresh "a" in let b := fresh "b" in let c := fresh "c" in
        destruct (place x) as [[a b] c]
    end;
  unfold before in *;
  repeat match goal with
    | H : _ \/ (_, _) = (_, _) |- _ => destruct H
    | H : (_, _) = (_, _) |- _ => injection H as
    end;
  repeat split; auto;
  try lia;
  try (right; repeat f_equal; lia).

Lemma fgt_flt x y : fgt x y = flt y x.
Proof.
  destruct (flt y x) eqn:H.
  - places. order.
  - destruct (fgt x y) eqn:H'; [|reflexivity].
    rewrite <- H. symmetry. places. order.
Qed.

Lemma flt_irrefl x : flt x x = false.
Proof. destruct (flt x x) eqn:H; [|reflexivity]. exfalso. places. order. Qed.

Lemma flt_asym x y : flt x y = true -> flt y x = false.
Proof.
  intros H. destruct (flt y x) eqn:H'; [|reflexivity]. exfalso. places. order.
Qed.

Lemma flt_fle x y : flt x y = true -> fle x y = true.
Proof. intros H. places. order. Qed.

Lemma flt_fle_trans x y z : flt x y = true -> fle y z = true -> flt x z = true.
Proof. intros H H'. places. order. Qed.

Lemma fle_flt_trans x y z : fle x y = true -> flt y z = true -> flt x z = true.
Proof. intros H H'. places. order. Qed.


Lemma fle_refl x : number x -> fle x x = true.
Proof. intros H. places. order. Qed.


Lemma flt_number x y : flt x y = true -> number x /\ number y.
Proof. intros H. places. auto. Qed.


End FloatOrder.

(** ** The dict *)

Module Dict.
Import Aggregator.

Lemma lookup_store_same k v d : lookup k (store k v d) = Some v.
Proof.
  induction d as [|[k' w] d IH]; simpl.
  - now rewrite String.eqb_refl.
  - destruct (String.eqb k k') eqn:E; simpl; rewrite E; auto.
Qed.

Lemma lookup_store_other k k' v d :
  k' <> k -> lookup k' (store k v d) = lookup k' d.
Proof.
  intros Hne. apply String.eqb_neq in Hne.
  induction d as [|[k0 w] d IH]; simpl.
  - now rewrite Hne.
  - destruct (String.eqb k k0) eqn:E; simpl.
    + apply String.eqb_eq in E. subst k0. now rewrite Hne.
    + now rewrite IH.
Qed.

Lemma store_store k v w d : store k v (store k w d) = store k v d.
Proof.
  induction d as [|[k' u] d IH]; simpl.
  - now rewrite String.eqb_refl.
  - destruct (String.eqb k k') eqn:E; simpl; rewrite E; congruence.
Qed.

Lemma store_lookup k v d : lookup k d = Some v -> store k v d = d.
Proof.
  induction d as [|[k' u] d IH]; simpl; [discriminate|].
  destruct (String.eqb k k') eqn:E; intros H.
  - congruence.
  - now rewrite IH.
Qed.

Lemma keys_store k v d :
  keys (store k v d) =
  match lookup k d with Some _ => keys d | None => (keys d ++ [k])%list end.
Proof.
  induction d as [|[k' u] d IH]; simpl; [reflexivity|].
  destruct (String.eqb k k') eqn:E; simpl; [reflexivity|].
  unfold keys in *. rewrite IH. now destruct (lookup k d).
Qed.

Lemma lookup_keys k d : In k (keys d) <-> lookup k d <> None.
Proof.
  induction d as [|[k' u] d IH]; simpl; [tauto|].
  destruct (String.eqb_spec k k') as [->|Hne].
  - split; [discriminate | auto].
  - rewrite <- IH. split; [intros [H|H]; congruence | auto].
Qed.

End Dict.

(** ** One call of [_addDeviceRecord] *)

Module Merge.
Import PyStr PyNum Aggregator Dict.

(** The four ways through the method. *)
Lemma add_cases t mac n m x d :
  _addDeviceRecord t mac n m x d =
  if negb (truthy (normalise mac)) then (Returned tt, d)
  else match py_float t with
       | None => (Raised ValueError, d)
       | Some ft =>
           match rssi_of x with
           | None => (Raised ValueError, d)
           | Some z =>
               (Returned tt,
                store (normalise mac)
                  (merged ft n m z (lookup (normalise mac) d)) d)
           end
       end.
Proof.
  unfold _addDeviceRecord, bind, convert, read, modify, ret, raise, merged.
  destruct (negb (truthy (normalise mac))); [reflexivity|].
  destruct (py_float t); [|reflexivity].
  destruct (rssi_of x); [|reflexivity].
  now destruct (lookup (normalise mac) d).
Qed.

Lemma truthy_false s : truthy s = false <-> s = "".
Proof. destruct s; simpl; split; congruence. Qed.

Lemma truthy_true s : truthy s = true <-> s <> "".
Proof. destruct s; simpl; split; congruence. Qed.


(** The dict after a call is the dict before it, or has one value stored
    under the normalised address. *)
Lemma exec_add t mac n m x d :
  exec (_addDeviceRecord t mac n m x) d = d \/
  exists r, exec (_addDeviceRecord t mac n m x) d = store (normalise mac) r d.
Proof.
  unfold exec. rewrite add_cases.
  destruct (negb (truthy (normalise mac))); [now left|].
  destruct (py_float t); [|now left].
  destruct (rssi_of x); [|now left].
  right. eexists. reflexivity.
Qed.

End Merge.

(** ** The claims about one call *)

Import PyStr PyNum Aggregator Dict Merge.

(** C1, as stated, does not hold: a candidate with an address and a
    timestamp that is no float literal makes the call raise. *)
Lemma C1_raises_on_unparseable_timestamp :
  ~ returns (_addDeviceRecord "yesterday" "AA:BB" "" "" "") [].
Proof. intros [a H]. vm_compute in H. discriminate. Qed.

(** C1, amended: the call returns normally when the normalised address is
    empty, and when the timestamp is a float literal and the rssi is empty
    or an integer literal; it raises [ValueError] and leaves the dict as it
    was when the address is not empty and the timestamp is a non-empty
    string that is no float literal, or the timestamp is a float literal
    and the rssi a non-empty string that is no integer literal. A literal
    is what [float] or [int] converts: whitespace around it is skipped,
    the separators 28 to 31 are not, and [int] takes no more than
    [max_str_digits] digits. *)
Theorem C1_merge_returns_on_parseable_input t mac n m x d :
  ((normalise mac = "" \/
    (py_float t <> None /\ (x = "" \/ py_int x <> None))) ->
   _addDeviceRecord t mac n m x d =
   (Returned tt, exec (_addDeviceRecord t mac n m x) d)) /\
  (normalise mac <> "" ->
   (t <> "" /\ py_float t = None) \/
   (py_float t <> None /\ x <> "" /\ py_int x = None) ->
   _addDeviceRecord t mac n m x d = (Raised ValueError, d)).
Proof.
  unfold exec. rewrite add_cases. split.
  - intros [Hm | [Ht Hx]].
    + now rewrite Hm.
    + destruct (negb (truthy (normalise mac))); [reflexivity|].
      destruct (py_float t); [|congruence].
      unfold rssi_of. destruct Hx as [-> | Hx]; [reflexivity|].
      destruct (truthy x); [|reflexivity].
      destruct (py_int x); [reflexivity | congruence].
  - intros Hm H. apply truthy_true in Hm. rewrite Hm. simpl.
    destruct H as [[_ ->] | (Ht & Hx & Hi)]; [reflexivity|].
    destruct (py_float t); [|congruence].
    unfold rssi_of. apply truthy_true in Hx. now rewrite Hx, Hi.
Qed.

Lemma C1_merge_returns_on_parseable_input_witness :
  _addDeviceRecord "" " " "n" "m" "x" [] = (Returned tt, []) /\
  _addDeviceRecord "12.5" "aa:bb" "n" "m" "-67" [] =
  (Returned tt,
   [("AA:BB",
     Device (S754_finite false 7036874417766400 (-49))
       (S754_finite false 7036874417766400 (-49)) "n" "m" (-67))])
  /\ _addDeviceRecord "12.5" "aa:bb" "n" "m" "loud" [] = (Raised ValueError, [])
  /\ _addDeviceRecord "12.5" "aa:bb" "n" "m" ("-67" ++ String "029" "") [] =
     (Raised ValueError, []).
Proof.
  split; [|split; [|split]].
  - apply (proj1 (C1_merge_returns_on_parseable_input "" " " "n" "m" "x" [])).
    left. reflexivity.
  - apply (proj1 (C1_merge_returns_on_parseable_input
                    "12.5" "aa:bb" "n" "m" "-67" [])).
    right. split; [vm_compute; discriminate|].
    right. vm_compute. discriminate.
  - apply (proj2 (C1_merge_returns_on_parseable_input
                    "12.5" "aa:bb" "n" "m" "loud" [])).
    + vm_compute. discriminate.
    + right. split; [vm_compute; discriminate|].
      split; [discriminate | reflexivity].
  - apply (proj2 (C1_merge_returns_on_parseable_input
                    "12.5" "aa:bb" "n" "m" ("-67" ++ String "029" "") [])).
    + vm_compute. discriminate.
    + right. split; [vm_compute; discriminate|].
      split; [vm_compute; discriminate | reflexivity].
Defined.

(** C6: a candidate whose address is empty once stripped and upper-cased
    is discarded: the call returns and the dict is the one before the call,
    whatever the other four strings are. *)
Theorem C6_empty_mac_discarded t mac n m x d :
  normalise mac = "" -> _addDeviceRecord t mac n m x d = (Returned tt, d).
Proof.
  intros Hmac. unfold _addDeviceRecord. rewrite Hmac. reflexivity.
Qed.

Lemma C6_empty_mac_discarded_witness :
  _addDeviceRecord "soon" "  " "Alice" "Acme" "loud"
    [("AA", Device S754_nan S754_nan "" "" 5000)] =
  (Returned tt, [("AA", Device S754_nan S754_nan "" "" 5000)]).
Proof. apply C6_empty_mac_discarded. reflexivity. Defined.

(** C10: a call changes at most the value stored under the normalised
    address of the candidate: the value under any other key is the one
    before the call (and a key that was absent stays absent), and every key
    of the dict before the call is a key after it, at the same position. *)
Theorem C10_merge_frame t mac n m x d k :
  (k <> normalise mac ->
   lookup k (exec (_addDeviceRecord t mac n m x) d) = lookup k d) /\
  (In k (keys d) -> In k (keys (exec (_addDeviceRecord t mac n m x) d))) /\
  (exists l, keys (exec (_addDeviceRecord t mac n m x) d) = (keys d ++ l)%list).
Proof.
  destruct (exec_add t mac n m x d) as [-> | [r ->]].
  - repeat split; auto. exists []. now rewrite app_nil_r.
  - split; [|split].
    + intros Hne. now apply lookup_store_other.
    + rewrite keys_store. destruct (lookup (normalise mac) d); auto.
      intros H. apply in_or_app. now left.
    + rewrite keys_store. destruct (lookup (normalise mac) d).
      * exists []. now rewrite app_nil_r.
      * eexists. reflexivity.
Qed.

Lemma C10_merge_frame_witness :
  lookup "CC" (exec (_addDeviceRecord "2.5" "aa" "n" "m" "-3")
                 [("AA", Device S754_nan S754_nan "" "" 5000);
                  ("CC", Device S754_nan S754_nan "c" "" (-7))]) =
  Some (Device S754_nan S754_nan "c" "" (-7)) /\
  In "AA" (keys (exec (_addDeviceRecord "2.5" "aa" "n" "m" "-3")
                 [("AA", Device S754_nan S754_nan "" "" 5000);
                  ("CC", Device S754_nan S754_nan "c" "" (-7))])).
Proof.
  split.
  - rewrite (proj1 (C10_merge_frame "2.5" "aa" "n" "m" "-3"
               [("AA", Device S754_nan S754_nan "" "" 5000);
                ("CC", Device S754_nan S754_nan "c" "" (-7))] "CC")).
    + reflexivity.
    + vm_compute. discriminate.
  - apply (proj1 (proj2 (C10_merge_frame "2.5" "aa" "n" "m" "-3"
               [("AA", Device S754_nan S754_nan "" "" 5000);
                ("CC", Device S754_nan S754_nan "c" "" (-7))] "AA"))).
    simpl. auto.
Defined.

(** ** The fields of a stored value under [update] *)

Module Fields.
Import PyStr PyNum Aggregator Dict Merge FloatOrder.

Ltac update_cases t n m x r :=
  unfold update, update_times;
  destruct (flt t (firstTime r)); [|destruct (fgt t (lastTime r))];
  unfold update_name; simpl;
  destruct (truthy (name r)); simpl;
  unfold update_manufacturer; simpl;
  destruct (truthy (manufacturer r)); simpl;
  unfold update_rssi; simpl;
  destruct (Z.abs x <? Z.abs (rssi r)); reflexivity.

Lemma firstTime_update t n m x r :
  firstTime (update t n m x r) = if flt t (firstTime r) then t else firstTime r.
Proof. update_cases t n m x r. Qed.

Lemma lastTime_update t n m x r :
  lastTime (update t n m x r) =
  if flt t (firstTime r) then lastTime r
  else if fgt t (lastTime r) then t else lastTime r.
Proof. update_cases t n m x r. Qed.

Lemma name_update t n m x r :
  name (update t n m x r) = if truthy (name r) then name r else n.
Proof. update_cases t n m x r. Qed.

Lemma manufacturer_update t n m x r :
  manufacturer (update t n m x r) =
  if truthy (manufacturer r) then manufacturer r else m.
Proof. update_cases t n m x r. Qed.

Lemma rssi_update t n m x r :
  rssi (update t n m x r) = if Z.abs x <? Z.abs (rssi r) then x else rssi r.
Proof. update_cases t n m x r. Qed.

Lemma device_eq r r' :
  firstTime r = firstTime r' -> lastTime r = lastTime r' ->
  name r = name r' -> manufacturer r = manufacturer r' -> rssi r = rssi r' ->
  r = r'.
Proof. destruct r, r'; simpl; congruence. Qed.

(** With the ends in order, a timestamp below the first is not above the
    last: the [elif] loses nothing. *)
Lemma below_first_not_above_last t r :
  ordered r -> flt t (firstTime r) = true -> fgt t (lastTime r) = false.
Proof.
  unfold ordered. intros Ho Hlt. rewrite fgt_flt.
  destruct (flt (lastTime r) t) eqn:H; [|reflexivity].
  rewrite <- Ho. symmetry. apply flt_fle_trans with t; auto using flt_fle.
Qed.

Lemma lastTime_update_ordered t n m x r :
  ordered r ->
  lastTime (update t n m x r) = if fgt t (lastTime r) then t else lastTime r.
Proof.
  intros Ho. rewrite lastTime_update.
  destruct (flt t (firstTime r)) eqn:H; [|reflexivity].
  now rewrite below_first_not_above_last.
Qed.

Lemma ordered_update t n m x r : ordered r -> ordered (update t n m x r).
Proof.
  intros Ho. unfold ordered.
  rewrite lastTime_update_ordered, firstTime_update by assumption.
  destruct (flt t (firstTime r)) eqn:H1.
  - rewrite below_first_not_above_last by assumption.
    destruct (flt (lastTime r) t) eqn:H2; [|reflexivity].
    rewrite <- Ho. symmetry. apply flt_fle_trans with t; auto using flt_fle.
  - destruct (fgt t (lastTime r)); [assumption | exact Ho].
Qed.


Lemma ordered_merged t n m x o :
  (forall r, o = Some r -> ordered r) -> ordered (merged t n m x o).
Proof.
  destruct o as [r|]; simpl; intros H.
  - apply ordered_update. now apply H.
  - apply flt_irrefl.
Qed.

(** A second [update] with the same arguments changes nothing. *)
Lemma update_twice t n m x r :
  ordered r -> update t n m x (update t n m x r) = update t n m x r.
Proof.
  intros Ho. pose proof (ordered_update t n m x r Ho) as Ho'.
  apply device_eq.
  - rewrite !firstTime_update.
    destruct (flt t (firstTime r)) eqn:H; rewrite ?flt_irrefl, ?H; reflexivity.
  - rewrite (lastTime_update_ordered t n m x _ Ho'), lastTime_update_ordered
      by assumption.
    destruct (fgt t (lastTime r)) eqn:H; rewrite ?fgt_flt, ?flt_irrefl;
      rewrite <- ?fgt_flt, ?H; reflexivity.
  - rewrite !name_update.
    destruct (truthy (name r)) eqn:H; rewrite ?H; [reflexivity|].
    now destruct (truthy n).
  - rewrite !manufacturer_update.
    destruct (truthy (manufacturer r)) eqn:H; rewrite ?H; [reflexivity|].
    now destruct (truthy m).
  - rewrite !rssi_update.
    destruct (Z.abs x <? Z.abs (rssi r)) eqn:H; rewrite ?H, ?Z.ltb_irrefl;
      reflexivity.
Qed.

Lemma update_created t n m x :
  update t n m x (Device t t n m x) = Device t t n m x.
Proof.
  apply device_eq.
  - rewrite firstTime_update. simpl. now rewrite flt_irrefl.
  - rewrite lastTime_update. simpl. now rewrite flt_irrefl, fgt_flt, flt_irrefl.
  - rewrite name_update. simpl. now destruct (truthy n).
  - rewrite manufacturer_update. simpl. now destruct (truthy m).
  - rewrite rssi_update. simpl. now rewrite Z.ltb_irrefl.
Qed.

(** Every value of a reachable dict has its ends in order. *)
Lemma reachable_ordered d :
  reachable d -> forall k r, lookup k d = Some r -> ordered r.
Proof.
  induction 1 as [|d c Hd IH]; intros k r; [discriminate|].
  unfold merge, exec. rewrite add_cases.
  destruct (negb (truthy _)); [apply IH|].
  destruct (py_float _); [|apply IH].
  destruct (rssi_of _); [|apply IH].
  simpl. destruct (String.eqb_spec k (normalise (c_mac c))) as [->|Hne].
  - rewrite lookup_store_same. intros [= <-].
    apply ordered_merged. intros r0. apply IH.
  - rewrite lookup_store_other by assumption. apply IH.
Qed.


End Fields.

Import Fields FloatOrder.

(** C7: on a dict the parser object can hold, a second call with the same
    candidate leaves the dict as the first call left it; when the address
    was not stored before and the call returns, both ends of the stored
    interval are the timestamp of the candidate. *)
Theorem C7_merge_idempotent d c t :
  reachable d ->
  normalise (c_mac c) <> "" ->
  py_float (c_timestamp c) = Some t ->
  exec (merge c) (exec (merge c) d) = exec (merge c) d /\
  (lookup (normalise (c_mac c)) d = None ->
   returns (merge c) d ->
   exists r, lookup (normalise (c_mac c)) (exec (merge c) (exec (merge c) d))
             = Some r /\ firstTime r = t /\ lastTime r = t).
Proof.
  intros Hd Hm Ht.
  pose proof (reachable_ordered d Hd (normalise (c_mac c))) as Ho.
  unfold merge, exec, returns. rewrite (add_cases _ _ _ _ _ d), Ht.
  apply truthy_true in Hm. rewrite Hm. simpl.
  destruct (rssi_of (c_rssi c)) as [z|] eqn:Hz; simpl.
  - rewrite add_cases, Ht, Hz, Hm. simpl.
    rewrite lookup_store_same, store_store. simpl.
    destruct (lookup (normalise (c_mac c)) d) as [r|] eqn:Hl; simpl.
    + rewrite update_twice by now apply Ho. split; [reflexivity|discriminate].
    + rewrite update_created. split; [reflexivity|]. intros _ _.
      rewrite lookup_store_same. eexists. split; [reflexivity|]. now split.
  - rewrite add_cases, Ht, Hz, Hm. simpl. split; [reflexivity|].
    intros _ [a Ha]. discriminate.
Qed.

Lemma C7_merge_idempotent_witness :
  exec (merge (Candidate "2.5" "aa" "n" "" "-60"))
    (exec (merge (Candidate "2.5" "aa" "n" "" "-60"))
       (exec (merge (Candidate "1.5" "bb" "" "" "-70")) [])) =
  exec (merge (Candidate "2.5" "aa" "n" "" "-60"))
    (exec (merge (Candidate "1.5" "bb" "" "" "-70")) []) /\
  exists r,
    lookup "AA"
      (exec (merge (Candidate "2.5" "aa" "n" "" "-60"))
         (exec (merge (Candidate "2.5" "aa" "n" "" "-60"))
            (exec (merge (Candidate "1.5" "bb" "" "" "-70")) []))) = Some r /\
    py_float "2.5" = Some (firstTime r) /\
    py_float "2.5" = Some (lastTime r).
Proof.
  destruct (C7_merge_idempotent
              (exec (merge (Candidate "1.5" "bb" "" "" "-70")) [])
              (Candidate "2.5" "aa" "n" "" "-60")
              (S754_finite false 5629499534213120 (-51)))
    as [Hsame Hnew].
  - apply reachable_merge, reachable_init.
  - vm_compute. discriminate.
  - reflexivity.
  - split; [exact Hsame|].
    destruct Hnew as (r & Hl & Hf & Hlast).
    + reflexivity.
    + exists tt. reflexivity.
    + exists r. split; [exact Hl|]. rewrite Hf, Hlast. now split.
Defined.

(** ** Sequences of calls for one address *)

Module Sequence.
Import PyStr PyNum Aggregator Dict Merge FloatOrder Fields.




Lemma fold_ordered ps r : ordered r -> ordered (fold_left absorb ps r).
Proof.
  revert r. induction ps as [|p ps IH]; intros r Ho; simpl; auto.
  apply IH. now apply ordered_update.
Qed.









Lemma first_truthy_head s l : s <> "" -> first_truthy (s :: l) = s.
Proof. intros H. simpl. apply truthy_true in H. now rewrite H. Qed.

Lemma fle_not_flt x y : fle x y = true -> flt y x = false.
Proof.
  intros H. destruct (flt y x) eqn:E; [|reflexivity]. exfalso. places. order.
Qed.

End Sequence.

Import Sequence.

(** ** The claims about sequences of calls *)




(** C3, as stated, does not hold: [nan] is a float literal, and the record
    created from it has [firstTime <= lastTime] false. *)
Lemma C3_nan_record_is_not_bounded :
  py_float "nan" = Some S754_nan /\
  bounded [] /\
  ~ bounded (exec (merge (Candidate "nan" "AA" "" "" "")) []).
Proof.
  split; [reflexivity|]. split; [intros k r; discriminate|].
  intros H. specialize (H "AA" (Device S754_nan S754_nan "" "" 5000) eq_refl).
  discriminate.
Qed.

(** C3, amended: [firstTime <= lastTime] on every stored value is kept by
    every call whose timestamp is a float literal, provided the call does
    not create a record from NaN; a record is created with both ends equal
    to the timestamp. *)
Theorem C3_bounds_invariant d c t :
  bounded d ->
  py_float (c_timestamp c) = Some t ->
  number t \/ lookup (normalise (c_mac c)) d <> None ->
  bounded (exec (merge c) d) /\
  (normalise (c_mac c) <> "" ->
   lookup (normalise (c_mac c)) d = None ->
   returns (merge c) d ->
   exists r, lookup (normalise (c_mac c)) (exec (merge c) d) = Some r /\
             firstTime r = t /\ lastTime r = t).
Proof.
  intros Hb Ht Hnum. unfold merge, exec, returns. rewrite add_cases, Ht.
  destruct (negb (truthy (normalise (c_mac c)))) eqn:Hm.
  - split; [exact Hb|]. intros Hne. apply truthy_true in Hne.
    rewrite Hne in Hm. discriminate.
  - destruct (rssi_of (c_rssi c)) as [z|]; simpl.
    + split.
      * intros k r.
        destruct (String.eqb_spec k (normalise (c_mac c))) as [->|Hne].
        -- rewrite lookup_store_same. intros [= <-].
           destruct (lookup (normalise (c_mac c)) d) as [r0|] eqn:Hl; simpl.
           ++ specialize (Hb _ _ Hl).
              assert (Ho : ordered r0) by apply (fle_not_flt _ _ Hb).
              rewrite firstTime_update, lastTime_update_ordered by exact Ho.
              destruct (flt t (firstTime r0)) eqn:H1.
              ** rewrite (below_first_not_above_last t r0 Ho H1).
                 apply flt_fle. now apply flt_fle_trans with (firstTime r0).
              ** destruct (fgt t (lastTime r0)) eqn:H2; [|exact Hb].
                 rewrite fgt_flt in H2. apply flt_fle.
                 now apply fle_flt_trans with (lastTime r0).
           ++ simpl. destruct Hnum as [Hnum|Hnum]; [|congruence].
              now apply fle_refl.
        -- rewrite lookup_store_other by assumption. apply Hb.
      * intros _ Hl _. rewrite lookup_store_same, Hl. simpl.
        eexists. split; [reflexivity|]. now split.
    + split; [exact Hb|]. intros _ _ [a Ha]. discriminate.
Qed.

Lemma C3_bounds_invariant_witness :
  bounded (exec (merge (Candidate "0.5" "aa" "" "" ""))
             (exec (merge (Candidate "1.5" "aa" "" "" "")) [])) /\
  exists r,
    lookup "AA" (exec (merge (Candidate "1.5" "aa" "" "" "")) []) = Some r /\
    py_float "1.5" = Some (firstTime r) /\
    py_float "1.5" = Some (lastTime r).
Proof.
  destruct (C3_bounds_invariant [] (Candidate "1.5" "aa" "" "" "")
              (S754_finite false 6755399441055744 (-52)))
    as [Hb Hnew].
  - intros k r. discriminate.
  - reflexivity.
  - left. reflexivity.
  - split.
    + apply (C3_bounds_invariant
               (exec (merge (Candidate "1.5" "aa" "" "" "")) [])
               (Candidate "0.5" "aa" "" "" "")
               (S754_finite false 4503599627370496 (-53))).
      * exact Hb.
      * reflexivity.
      * left. reflexivity.
    + destruct Hnew as (r & Hl & Hf & Hlast).
      * vm_compute. discriminate.
      * reflexivity.
      * exists tt. reflexivity.
      * exists r. split; [exact Hl|]. rewrite Hf, Hlast. now split.
Defined.





(** ** The line loop *)

Module Lines.
Import PyStr PyNum Aggregator Dict Merge.
Import Parser.

Lemma boundary_first_char line : is_boundary line = re_boundary line.
Proof.
  unfold is_boundary. destruct line as [|c s]; simpl; [reflexivity|].
  destruct (rstrip s); [|reflexivity].
  destruct (isspace c) eqn:E; simpl; rewrite ?E; reflexivity.
Qed.

Lemma step_traced line a d log :
  step traced line a (d, log) =
  if is_boundary line then
    match _addDeviceRecord (timestamp a) (mac a) (name a) (manufacturer a)
            (rssi a) d with
    | (Returned _, d') =>
        (Returned (after_line a line), (d', (log ++ [flush a])%list))
    | (Raised e, d') => (Raised e, (d', (log ++ [flush a])%list))
    end
  else (Returned (after_line a line), (d, log)).
Proof.
  unfold step, after_line, is_boundary, bind, traced, ret, flush.
  destruct (re_boundary (rstrip line)); [|reflexivity].
  cbn [fst snd].
  destruct (_addDeviceRecord _ _ _ _ _ d) as [[[]|e] d']; reflexivity.
Qed.

Lemma step_add line a d :
  step _addDeviceRecord line a d =
  if is_boundary line then
    match _addDeviceRecord (timestamp a) (mac a) (name a) (manufacturer a)
            (rssi a) d with
    | (Returned _, d') => (Returned (after_line a line), d')
    | (Raised e, d') => (Raised e, d')
    end
  else (Returned (after_line a line), d).
Proof.
  unfold step, after_line, is_boundary, bind, ret.
  destruct (re_boundary (rstrip line)); [|reflexivity].
  destruct (_addDeviceRecord _ _ _ _ _ d) as [[[]|e] d']; reflexivity.
Qed.

Lemma loop_cons {S} (record : string -> string -> string -> string ->
                              string -> M S unit) line lines a s :
  loop record (line :: lines) a s =
  match step record line a s with
  | (Returned a', s') => loop record lines a' s'
  | (Raised e, s') => (Raised e, s')
  end.
Proof. reflexivity. Qed.

(** The loop with the log does to the dict what the loop without it does,
    and logs a prefix of the candidates of the boundary lines: all of them
    when it returns. *)
Lemma loop_traced lines : forall a d log,
  fst (loop traced lines a (d, log)) = fst (loop _addDeviceRecord lines a d) /\
  fst (snd (loop traced lines a (d, log))) =
    snd (loop _addDeviceRecord lines a d) /\
  (exists n, snd (snd (loop traced lines a (d, log))) =
             (log ++ firstn n (flushes a lines))%list) /\
  (fst (loop _addDeviceRecord lines a d) = Returned tt ->
   snd (snd (loop traced lines a (d, log))) = (log ++ flushes a lines)%list).
Proof.
  induction lines as [|line lines IH]; intros a d log.
  - simpl. repeat split; auto; [exists 0%nat|]; now rewrite app_nil_r.
  - rewrite !loop_cons, step_traced, step_add. cbn [flushes].
    destruct (is_boundary line).
    + destruct (_addDeviceRecord _ _ _ _ _ d) as [[[]|e] d'].
      * destruct (IH (after_line a line) d' (log ++ [flush a])%list)
          as (H1 & H2 & [n H3] & H4).
        split; [exact H1|]. split; [exact H2|]. split.
        -- exists (S n). rewrite H3, <- app_assoc. reflexivity.
        -- intros H. rewrite H4, <- app_assoc by exact H. reflexivity.
      * simpl. split; [reflexivity|]. split; [reflexivity|]. split.
        -- exists 1%nat. reflexivity.
        -- discriminate.
    + destruct (IH (after_line a line) d log) as (H1 & H2 & H3 & H4).
      auto.
Qed.

(** The loop does what the calls for the candidates of its boundary lines
    do, one after the other. *)
Lemma loop_merge_all lines : forall a d,
  loop _addDeviceRecord lines a d = merge_all (flushes a lines) d.
Proof.
  induction lines as [|line lines IH]; intros a d; [reflexivity|].
  rewrite loop_cons, step_add. cbn [flushes].
  destruct (is_boundary line); [|apply IH].
  cbn [merge_all]. unfold bind, merge, flush. cbn [c_timestamp c_mac c_name
    c_manufacturer c_rssi].
  destruct (_addDeviceRecord _ _ _ _ _ d) as [[[]|e] d']; [apply IH|].
  reflexivity.
Qed.

Lemma flushes_length lines : forall a,
  List.length (flushes a lines) = List.length (boundaries lines).
Proof.
  induction lines as [|line lines IH]; intros a; simpl; [reflexivity|].
  destruct (is_boundary line); simpl; now rewrite IH.
Qed.

Lemma flushes_nth pre b post : forall a,
  is_boundary b = true ->
  nth_error (flushes a (pre ++ b :: post)) (List.length (boundaries pre)) =
  Some (flush (fold_left after_line pre a)).
Proof.
  intros a Hb. revert a.
  induction pre as [|line pre IH]; intros a; simpl.
  - now rewrite Hb.
  - destruct (is_boundary line); simpl; apply IH.
Qed.

Lemma flushes_trailing lines tl : forall a,
  Forall (fun l => is_boundary l = false) tl ->
  flushes a (lines ++ tl) = flushes a lines.
Proof.
  intros a Htl. revert a.
  induction lines as [|line lines IH]; intros a; simpl.
  - revert a. induction Htl as [|l tl Hl _ IH]; intros a; simpl; auto.
    now rewrite Hl.
  - now rewrite IH.
Qed.

(** Lines after the last boundary line change nothing: neither the
    outcome, nor the dict, nor the calls. *)
Lemma loop_trailing {S} (record : string -> string -> string -> string ->
                                  string -> M S unit) lines tl :
  Forall (fun l => is_boundary l = false) tl ->
  forall a s, loop record (lines ++ tl) a s = loop record lines a s.
Proof.
  intros Htl. induction lines as [|line lines IH]; intros a s.
  - cbn [app]. revert a.
    induction Htl as [|l tl Hl _ IH]; intros a; [reflexivity|].
    rewrite loop_cons. unfold step. fold (is_boundary l). rewrite Hl.
    unfold ret. rewrite IH. reflexivity.
  - cbn [app]. rewrite !loop_cons.
    destruct (step record line a s) as [[a'|e] s']; auto.
Qed.

End Lines.

Import Lines.

(** C8, as stated, does not hold for every file: a call that raises ends
    the loop, and the boundary lines after it have no call. *)
Lemma C8_no_call_after_a_raise :
  List.length (Parser.calls
            ["= start] soon"; "    Address: AA:BB (public)"; "= next";
             "= last"] []) = 2%nat /\
  List.length (Parser.boundaries
            ["= start] soon"; "    Address: AA:BB (public)"; "= next";
             "= last"]) = 3%nat.
Proof. split; vm_compute; reflexivity. Qed.

(** C8, amended: when [parse] returns, it has made one call for each
    boundary line (a line whose first character is no whitespace), in
    order, with the variables gathered from the lines before it, and these
    calls are all it does to the dict; and in every case lines after the
    last boundary line add no call and change neither the outcome nor the
    dict, so that what they gathered is never flushed. *)
Theorem C8_one_call_per_boundary_no_trailing_flush lines d :
  (returns (Parser.parse_lines lines) d ->
   List.length (Parser.calls lines d) = List.length (Parser.boundaries lines)
   /\
   (forall pre b post,
      lines = (pre ++ b :: post)%list ->
      Parser.is_boundary b = true ->
      nth_error (Parser.calls lines d) (List.length (Parser.boundaries pre)) =
      Some (Parser.flush (Parser.gathered pre))) /\
   Parser.parse_lines lines d = merge_all (Parser.calls lines d) d) /\
  (forall l, Parser.is_boundary l = true <->
             exists c s, l = String c s /\ isspace c = false) /\
  (forall tl,
     Forall (fun l => Parser.is_boundary l = false) tl ->
     Parser.calls (lines ++ tl) d = Parser.calls lines d /\
     Parser.parse_lines (lines ++ tl) d = Parser.parse_lines lines d).
Proof.
  unfold Parser.calls, Parser.parse_lines, Parser.parse_with, exec.
  split; [|split].
  - intros [[] Hret].
    destruct (loop_traced lines Parser.empty d []) as (_ & _ & _ & Hlog).
    specialize (Hlog Hret). simpl in Hlog. rewrite Hlog.
    split; [apply flushes_length|]. split; [|apply loop_merge_all].
    intros pre b post -> Hb. now apply flushes_nth.
  - intros l. rewrite boundary_first_char. destruct l as [|c s]; simpl.
    + split; [discriminate | intros (c & s & H & _); discriminate].
    + rewrite negb_true_iff. split.
      * intros H. now exists c, s.
      * now intros (c' & s' & [= <- <-] & H).
  - intros tl Htl. now rewrite !loop_trailing.
Qed.

Lemma C8_one_call_per_boundary_no_trailing_flush_witness :
  List.length (Parser.calls
            ["= start] 1.5"; "    Address: AA:BB (public)"; "= next] 2.5";
             "    Address: CC:DD (public)"; "    RSSI: -50 dBm"] []) = 2%nat /\
  nth_error (Parser.calls
            ["= start] 1.5"; "    Address: AA:BB (public)"; "= next] 2.5"] [])
    1 = Some (Candidate "1.5" "AA:BB" "" "" "") /\
  Parser.parse_lines
    ["= start] 1.5"; "    Address: AA:BB (public)"; "= next] 2.5";
     "    Address: CC:DD (public)"; "    RSSI: -50 dBm"] [] =
  (Returned tt,
   [("AA:BB", Device (S754_finite false 6755399441055744 (-52))
                (S754_finite false 6755399441055744 (-52)) "" "" 5000)]).
Proof.
  destruct (C8_one_call_per_boundary_no_trailing_flush
              ["= start] 1.5"; "    Address: AA:BB (public)"; "= next] 2.5"] [])
    as (Hret & _ & Htl).
  destruct Hret as (Hlen & Hnth & _); [exists tt; reflexivity|].
  destruct (Htl ["    Address: CC:DD (public)"; "    RSSI: -50 dBm"])
    as [Hcalls Hparse]; [repeat constructor|].
  split; [|split].
  - change (List.length (Parser.calls
              (["= start] 1.5"; "    Address: AA:BB (public)";
                "= next] 2.5"] ++
               ["    Address: CC:DD (public)"; "    RSSI: -50 dBm"]) [])
            = 2%nat).
    rewrite Hcalls, Hlen. reflexivity.
  - apply (Hnth ["= start] 1.5"; "    Address: AA:BB (public)"]
             "= next] 2.5" []); reflexivity.
  - change (Parser.parse_lines
              (["= start] 1.5"; "    Address: AA:BB (public)";
                "= next] 2.5"] ++
               ["    Address: CC:DD (public)"; "    RSSI: -50 dBm"]) []
            = (Returned tt,
               [("AA:BB",
                 Device (S754_finite false 6755399441055744 (-52))
                   (S754_finite false 6755399441055744 (-52)) "" ""
                   5000)])).
    rewrite Hparse. reflexivity.
Defined.

(** ** The rows of the report *)

Module Rows.
Import PyStr PyNum Aggregator Dict.
Import Report.

Lemma ascii_compare_trans a b c o :
  Ascii.compare a b = o -> Ascii.compare b c = o -> Ascii.compare a c = o.
Proof.
  unfold Ascii.compare. intros H1 H2.
  destruct o.
  - rewrite N.compare_eq_iff in *. congruence.
  - rewrite N.compare_lt_iff in *. now apply N.lt_trans with (N_of_ascii b).
  - rewrite N.compare_gt_iff in *. now apply N.lt_trans with (N_of_ascii b).
Qed.

Lemma string_leb_trans s : forall t u,
  (s <=? t)%string = true -> (t <=? u)%string = true ->
  (s <=? u)%string = true.
Proof.
  unfold String.leb.
  induction s as [|a s IH]; intros [|b t] [|c u]; simpl; auto;
    try discriminate.
  destruct (Ascii.compare a b) eqn:Hab; try discriminate;
    destruct (Ascii.compare b c) eqn:Hbc; try discriminate; intros H1 H2.
  - rewrite (ascii_compare_trans _ _ _ _ Hab Hbc). now apply IH with t.
  - apply Ascii.compare_eq_iff in Hab. subst b. now rewrite Hbc.
  - apply Ascii.compare_eq_iff in Hbc. subst c. now rewrite Hab.
  - now rewrite (ascii_compare_trans _ _ _ _ Hab Hbc).
Qed.

Lemma key_le_trans x y z : key_le x y -> key_le y z -> key_le x z.
Proof. apply string_leb_trans. Qed.

Lemma key_le_total x y : key_le x y \/ key_le y x.
Proof. apply String.leb_total. Qed.

Lemma insert_perm x l : Permutation (insert x l) (x :: l).
Proof.
  induction l as [|y l IH]; simpl; [reflexivity|].
  destruct (sort_key x <=? sort_key y)%string; [reflexivity|].
  rewrite IH. apply perm_swap.
Qed.

Lemma sort_perm l : Permutation (sort l) l.
Proof.
  induction l as [|x l IH]; simpl; [reflexivity|].
  rewrite insert_perm. now constructor.
Qed.

Lemma insert_sorted x l :
  StronglySorted key_le l -> StronglySorted key_le (insert x l).
Proof.
  induction 1 as [|y l Hl IH Hy]; simpl.
  - repeat constructor.
  - destruct (sort_key x <=? sort_key y)%string eqn:E.
    + constructor; [now constructor|].
      constructor; [exact E|].
      eapply Forall_impl; [|exact Hy].
      intros z Hz. now apply key_le_trans with y.
    + constructor; [exact IH|].
      apply (Permutation_Forall (Permutation_sym (insert_perm x l))).
      constructor; [|exact Hy].
      destruct (key_le_total x y) as [H|H]; [|exact H].
      unfold key_le in H. congruence.
Qed.

Lemma sort_sorted l : StronglySorted key_le (sort l).
Proof.
  induction l as [|x l IH]; simpl; [constructor|]. now apply insert_sorted.
Qed.

Lemma in_rows x d :
  In x (rows d) <->
  exists mac r, In mac (keys d) /\ lookup mac d = Some r /\ x = row_of mac r.
Proof.
  unfold rows. rewrite in_flat_map. split.
  - intros (mac & Hk & Hx). destruct (lookup mac d) as [r|] eqn:Hl.
    + destruct Hx as [<-|[]]. now exists mac, r.
    + destruct Hx.
  - intros (mac & r & Hk & Hl & ->). exists mac. split; [exact Hk|].
    rewrite Hl. now left.
Qed.

End Rows.

Import Rows.

(** C9: in the table of a report, every row is the row of a stored device
    and every stored device has its row; the rssi cell is the string
    [Unknown] exactly when the absolute value of the stored rssi exceeds
    255 and the stored integer otherwise; the name cell is the stored name,
    or the address when that is empty; the manufacturer cell is the stored
    manufacturer, or [Unknown]; and the rows are in the order of their keys
    [<rssi cell> <address>], compared as strings. *)
Theorem C9_report_rows d table :
  Report.report_rows d = Some table ->
  StronglySorted
    (fun x y =>
       (Report.format (Report.r_rssi x) ++ " " ++ Report.r_mac x <=?
        Report.format (Report.r_rssi y) ++ " " ++ Report.r_mac y)%string
       = true) table /\
  (forall mac, In mac (keys d) -> exists x, In x table /\ Report.r_mac x = mac)
  /\
  (forall x, In x table ->
     exists r, lookup (Report.r_mac x) d = Some r /\
       (Report.r_rssi x = Report.Str "Unknown" <-> 255 < Z.abs (rssi r)) /\
       (Z.abs (rssi r) <= 255 -> Report.r_rssi x = Report.Int (rssi r)) /\
       (name r <> "" -> Report.r_name x = name r) /\
       (name r = "" -> Report.r_name x = Report.r_mac x) /\
       (manufacturer r <> "" -> Report.r_manufacturer x = manufacturer r) /\
       (manufacturer r = "" -> Report.r_manufacturer x = "Unknown") /\
       Report.r_firstTime x = firstTime r /\
       Report.r_lastTime x = lastTime r).
Proof.
  unfold Report.report_rows. intros H.
  assert (Ht : table = Report.sort (Report.rows d))
    by (destruct d; [discriminate | congruence]).
  clear H. subst table. split; [apply sort_sorted|]. split.
  - intros mac Hk. pose proof Hk as Hl. apply lookup_keys in Hl.
    destruct (lookup mac d) as [r|] eqn:E; [|congruence].
    exists (Report.row_of mac r). split; [|reflexivity].
    apply (Permutation_in _ (Permutation_sym (sort_perm _))).
    apply in_rows. now exists mac, r.
  - intros x Hx. apply (Permutation_in _ (sort_perm _)) in Hx.
    apply in_rows in Hx. destruct Hx as (mac & r & _ & Hl & ->).
    exists r. simpl. split; [exact Hl|].
    destruct (Z.ltb_spec 255 (Z.abs (rssi r))).
    + repeat split; try (intros; lia); try reflexivity;
        try (intros Hn; apply Merge.truthy_true in Hn; now rewrite Hn);
        try (intros Hn; now rewrite Hn).
    + repeat split; try (intros; lia); try discriminate; try reflexivity;
        try (intros Hn; apply Merge.truthy_true in Hn; now rewrite Hn);
        try (intros Hn; now rewrite Hn).
Qed.

Lemma C9_report_rows_witness :
  exists x y z,
    Report.report_rows
      [("A", Device S754_nan S754_nan "" "" (-9));
       ("B", Device S754_nan S754_nan "b" "Acme" (-80));
       ("C", Device S754_nan S754_nan "" "" 5000)] = Some [x; y; z] /\
    Report.r_rssi x = Report.Int (-80) /\
    Report.r_rssi y = Report.Int (-9) /\
    Report.r_rssi z = Report.Str "Unknown" /\
    Report.r_name z = "C" /\
    Report.r_manufacturer z = "Unknown" /\
    (Report.sort_key x <=? Report.sort_key y)%string = true /\
    (Report.sort_key y <=? Report.sort_key z)%string = true.
Proof.
  do 3 eexists. split; [reflexivity|].
  destruct (C9_report_rows
              [("A", Device S754_nan S754_nan "" "" (-9));
               ("B", Device S754_nan S754_nan "b" "Acme" (-80));
               ("C", Device S754_nan S754_nan "" "" 5000)] _ eq_refl)
    as (Hsorted & _ & Hcells).
  destruct (Hcells (Report.row_of "C" (Device S754_nan S754_nan "" "" 5000)))
    as (r & Hl & Hunknown & _ & _ & Hname & _ & Hmanu & _).
  { simpl. auto. }
  injection Hl as <-.
  split; [reflexivity|]. split; [reflexivity|].
  split; [apply Hunknown; simpl; lia|].
  split; [apply Hname; reflexivity|].
  split; [apply Hmanu; reflexivity|].
  inversion Hsorted as [|? ? Hsorted' Hhd]; subst.
  inversion Hhd as [|? ? Hxy _]; subst.
  inversion Hsorted' as [|? ? _ Hhd']; subst.
  inversion Hhd' as [|? ? Hyz _]; subst.
  split; assumption.
Defined.

(** * Further properties of the code *)

(** ** Stripping and upper case *)

Module Strip.
Import PyStr PyNum Aggregator Driver.

Lemma isspace_upper_char c : isspace (upper_char c) = isspace c.
Proof. destruct c as [[] [] [] [] [] [] [] []]; reflexivity. Qed.

Lemma upper_char_twice c : upper_char (upper_char c) = upper_char c.
Proof. destruct c as [[] [] [] [] [] [] [] []]; reflexivity. Qed.

Lemma upper_twice s : upper (upper s) = upper s.
Proof.
  induction s as [|c s IH]; simpl; [reflexivity|].
  now rewrite upper_char_twice, IH.
Qed.

Lemma upper_empty s : upper s = "" <-> s = "".
Proof. destruct s; simpl; split; congruence. Qed.

Lemma lstrip_upper s : lstrip (upper s) = upper (lstrip s).
Proof.
  induction s as [|c s IH]; simpl; [reflexivity|].
  rewrite isspace_upper_char. now destruct (isspace c).
Qed.

Lemma rstrip_upper s : rstrip (upper s) = upper (rstrip s).
Proof.
  induction s as [|c s IH]; simpl; [reflexivity|].
  rewrite IH, isspace_upper_char.
  destruct (rstrip s); simpl; [now destruct (isspace c)|reflexivity].
Qed.

Lemma strip_of_upper s : strip (upper s) = upper (strip s).
Proof. unfold strip. now rewrite lstrip_upper, rstrip_upper. Qed.

(** What [lstrip] returns is empty or starts with a character that is no
    whitespace. *)
Lemma lstrip_head s :
  lstrip s = "" \/ exists c t, lstrip s = String c t /\ isspace c = false.
Proof.
  induction s as [|c s IH]; simpl; [now left|].
  destruct (isspace c) eqn:E; [exact IH|]. right. now exists c, s.
Qed.

Lemma lstrip_fixed c t : isspace c = false -> lstrip (String c t) = String c t.
Proof. intros H. simpl. now rewrite H. Qed.

Lemma lstrip_twice s : lstrip (lstrip s) = lstrip s.
Proof.
  destruct (lstrip_head s) as [-> | (c & t & -> & H)]; [reflexivity|].
  now apply lstrip_fixed.
Qed.

Lemma lstrip_rstrip s : lstrip (rstrip s) = rstrip (lstrip s).
Proof.
  induction s as [|c s IH]; [reflexivity|].
  cbn [lstrip rstrip]. destruct (isspace c) eqn:E.
  - rewrite <- IH. destruct (rstrip s) as [|c' r]; [reflexivity|].
    cbn [lstrip]. now rewrite E.
  - cbn [rstrip]. destruct (rstrip s) as [|c' r]; rewrite ?E;
      now apply lstrip_fixed.
Qed.

Lemma rstrip_twice s : rstrip (rstrip s) = rstrip s.
Proof.
  induction s as [|c s IH]; [reflexivity|].
  cbn [rstrip]. destruct (rstrip s) as [|c' r] eqn:E.
  - destruct (isspace c) eqn:Ec; [reflexivity|]. simpl. now rewrite Ec.
  - cbn [rstrip]. cbn [rstrip] in IH. now rewrite IH.
Qed.

Lemma strip_twice s : strip (strip s) = strip s.
Proof.
  unfold strip. now rewrite lstrip_rstrip, lstrip_twice, rstrip_twice.
Qed.

Lemma lstrip_empty s : lstrip s = "" <-> all_space s = true.
Proof.
  unfold all_space. induction s as [|c s IH]; simpl; [tauto|].
  destruct (isspace c); simpl; [exact IH|]. split; discriminate.
Qed.

Lemma rstrip_empty s : rstrip s = "" <-> all_space s = true.
Proof.
  unfold all_space. induction s as [|c s IH]; simpl; [tauto|].
  destruct (rstrip s) as [|c' r].
  - destruct (isspace c); simpl; [tauto|]. split; discriminate.
  - split; [discriminate|]. intros H. apply andb_prop in H.
    destruct IH as [_ IH]. now specialize (IH (proj2 H)).
Qed.

Lemma strip_empty s : strip s = "" <-> all_space s = true.
Proof.
  unfold strip. rewrite rstrip_empty.
  destruct (lstrip_head s) as [E | (c & t & E & Hc)].
  - rewrite E. split; [intros _; now apply lstrip_empty|reflexivity].
  - rewrite E. unfold all_space at 1. simpl. rewrite Hc. simpl.
    split; [discriminate|]. intros H. apply lstrip_empty in H. congruence.
Qed.

Lemma normalise_twice s : normalise (normalise s) = normalise s.
Proof.
  unfold normalise. rewrite strip_of_upper, strip_twice. apply upper_twice.
Qed.

End Strip.

Import Strip.

(** Normalising an address a second time changes nothing: an address that
    is already a key of the dict is looked up under itself. *)
Theorem normalise_idempotent mac : normalise (normalise mac) = normalise mac.
Proof.
  unfold normalise. now rewrite strip_of_upper, strip_twice, upper_twice.
Qed.

(** The guard [if not mac: return] fires exactly for the addresses made of
    whitespace only (the empty address included). *)
Theorem blank_address_iff mac :
  normalise mac = "" <-> Driver.all_space mac = true.
Proof. unfold normalise. now rewrite upper_empty, strip_empty. Qed.

(** ** The keys and the values of the dict *)

Module Keys.
Import PyStr PyNum Aggregator Dict Merge FloatOrder Fields Driver.

(** The keys after a call that returns. *)
Lemma keys_merge c d :
  keys (exec (merge c) d) = keys d \/
  (keys (exec (merge c) d) = (keys d ++ [normalise (c_mac c)])%list /\
   normalise (c_mac c) <> "" /\ ~ In (normalise (c_mac c)) (keys d)).
Proof.
  unfold merge, exec. rewrite add_cases.
  destruct (negb (truthy _)) eqn:Hm; [now left|].
  destruct (py_float _); [|now left].
  destruct (rssi_of _); [|now left].
  cbn [snd]. rewrite keys_store.
  destruct (lookup (normalise (c_mac c)) d) eqn:Hl; [now left|].
  right. split; [reflexivity|]. split.
  - apply truthy_true. now destruct (truthy _).
  - rewrite lookup_keys. congruence.
Qed.

Lemma keys_merge_returned c d :
  fst (merge c d) = Returned tt ->
  forall k, In k (keys (exec (merge c) d)) <->
            In k (keys d) \/ (k <> "" /\ normalise (c_mac c) = k).
Proof.
  unfold merge, exec. rewrite add_cases.
  destruct (truthy (normalise (c_mac c))) eqn:Hm; cbn [negb].
  - destruct (py_float _); [|discriminate].
    destruct (rssi_of _); [|discriminate].
    intros _ k. cbn [snd]. rewrite keys_store.
    apply truthy_true in Hm.
    destruct (lookup (normalise (c_mac c)) d) eqn:Hl.
    + split; [tauto|]. intros [H | [_ <-]]; [exact H|].
      apply lookup_keys. congruence.
    + rewrite in_app_iff. simpl. split.
      * intros [H | [<- | []]]; [now left | now right].
      * intros [H | [_ <-]]; [now left | right; now left].
  - intros _ k. apply truthy_false in Hm. cbn [snd]. split; [tauto|].
    intros [H | [Hk <-]]; [exact H | contradiction].
Qed.

Lemma reachable_merge_all cs : forall d,
  reachable d -> reachable (exec (merge_all cs) d).
Proof.
  induction cs as [|c cs IH]; intros d Hd; [exact Hd|].
  unfold exec. cbn [merge_all]. unfold bind.
  pose proof (reachable_merge d c Hd) as Hd'. unfold exec in Hd'.
  destruct (merge c d) as [[[]|e] d']; cbn [snd] in *; [|exact Hd'].
  now apply IH.
Qed.

Lemma keys_merge_all cs : forall d d',
  merge_all cs d = (Returned tt, d') ->
  forall k, In k (keys d') <->
            In k (keys d) \/
            (k <> "" /\ exists c, In c cs /\ normalise (c_mac c) = k).
Proof.
  induction cs as [|c cs IH]; intros d d'.
  - intros [= <-] k. split; [tauto|]. intros [H | (_ & c & [] & _)]. exact H.
  - cbn [merge_all]. unfold bind.
    pose proof (keys_merge_returned c d) as Hc. unfold exec in Hc.
    destruct (merge c d) as [[[]|e] d1]; [|discriminate].
    intros H k. rewrite (IH _ _ H), (Hc eq_refl). cbn [snd]. split.
    + intros [[Hk | [Hk Hm]] | (Hk & c' & Hin & Hm)]; auto.
      * right. split; [exact Hk|]. exists c. split; [now left | exact Hm].
      * right. split; [exact Hk|]. exists c'. split; [now right | exact Hm].
    + intros [Hk | (Hk & c' & [<- | Hin] & Hm)]; auto.
      right. split; [exact Hk|]. now exists c'.
Qed.

(** The prefix of the keys is kept by a run of calls, whether it returns
    or raises. *)
Lemma keys_prefix_merge_all cs : forall d,
  exists l, keys (exec (merge_all cs) d) = (keys d ++ l)%list.
Proof.
  induction cs as [|c cs IH]; intros d.
  - exists []. now rewrite app_nil_r.
  - unfold exec. cbn [merge_all]. unfold bind.
    pose proof (keys_merge c d) as Hc. unfold exec in Hc.
    destruct (merge c d) as [[[]|e] d1]; cbn [snd] in *.
    + destruct (IH d1) as [l Hl]. unfold exec in Hl. rewrite Hl.
      destruct Hc as [-> | [-> _]]; [now exists l|].
      rewrite <- app_assoc. eexists. reflexivity.
    + destruct Hc as [-> | [-> _]]; [exists []; now rewrite app_nil_r|].
      eexists. reflexivity.
Qed.

Lemma reachable_nodup d : reachable d -> NoDup (keys d).
Proof.
  induction 1 as [|d c Hd IH]; [constructor|].
  destruct (keys_merge c d) as [-> | (-> & _ & Hnew)]; [exact IH|].
  apply NoDup_app; [exact IH | repeat constructor; intros [] | ].
  intros k Hk [<- | []]. contradiction.
Qed.


End Keys.

Import Keys Driver.

(** The keys of a dict that the parser object can hold are pairwise
    different, none is empty and each is its own normal form: there is one
    record for an address, whatever its case and the whitespace around
    it. *)
Theorem reachable_keys d :
  reachable d ->
  NoDup (keys d) /\
  forall k, In k (keys d) -> k <> "" /\ normalise k = k.
Proof.
  induction 1 as [|d c Hd [IHn IHk]].
  - split; [constructor | intros k []].
  - destruct (keys_merge c d) as [-> | (-> & Hne & Hnew)]; [now split|]. split.
    + apply NoDup_app; [exact IHn | repeat constructor; intros [] | ].
      intros k Hk [<- | []]. contradiction.
    + intros k Hk. apply in_app_or in Hk. destruct Hk as [Hk | [<- | []]].
      * now apply IHk.
      * split; [exact Hne | apply normalise_twice].
Qed.

Lemma reachable_keys_witness :
  NoDup (keys (exec (merge_all [Candidate "1" " aa" "" "" "";
                                Candidate "2" "bb" "" "" "";
                                Candidate "3" "AA " "" "" ""]) [])).
Proof.
  apply reachable_keys. apply reachable_merge_all, reachable_init.
Defined.

(** A call raises exactly when the address is not blank and the timestamp
    is no float literal (the empty timestamp included) or the rssi is not
    empty and no integer literal (one of more than [max_str_digits] digits
    is none); what it raises is [ValueError], and the dict is then the one
    before the call. *)
Theorem raises_iff t mac n m x d :
  (fst (_addDeviceRecord t mac n m x d) = Raised ValueError <->
   normalise mac <> "" /\
   (py_float t = None \/ (x <> "" /\ py_int x = None))) /\
  (forall e, fst (_addDeviceRecord t mac n m x d) = Raised e ->
             exec (_addDeviceRecord t mac n m x) d = d).
Proof.
  unfold exec. rewrite add_cases. unfold rssi_of.
  destruct (truthy (normalise mac)) eqn:Hm; cbn [negb].
  - apply truthy_true in Hm.
    destruct (py_float t) as [ft|].
    + destruct (truthy x) eqn:Hx.
      * apply truthy_true in Hx.
        destruct (py_int x); cbn [fst snd].
        -- split; [|discriminate]. split; [discriminate|].
           intros [_ [H | [_ H]]]; discriminate.
        -- split; [|reflexivity]. split; [|reflexivity].
           intros _. split; [exact Hm|]. right. now split.
      * apply truthy_false in Hx. cbn [fst snd].
        split; [|discriminate]. split; [discriminate|].
        intros [_ [H | [H _]]]; [discriminate | contradiction].
    + cbn [fst snd]. split; [|reflexivity]. split; [|reflexivity].
      intros _. split; [exact Hm | now left].
  - apply truthy_false in Hm. cbn [fst snd]. split; [|discriminate].
    split; [discriminate | intros [H _]; contradiction].
Qed.

(** On every dict that the parser object can hold, the ends of a stored
    interval are both NaN or satisfy [firstTime <= lastTime]. *)
Theorem reachable_bounds d k r :
  reachable d ->
  lookup k d = Some r ->
  (is_nan (firstTime r) = true /\ is_nan (lastTime r) = true) \/
  fle (firstTime r) (lastTime r) = true.
Proof.
  intros Hd. revert k r. induction Hd as [|d c Hd IH]; intros k r.
  - discriminate.
  - unfold merge, exec. rewrite add_cases.
    destruct (negb (truthy _)); [apply IH|].
    destruct (py_float _) as [t|]; [|apply IH].
    destruct (rssi_of _) as [z|]; [|apply IH].
    cbn [snd]. destruct (String.eqb_spec k (normalise (c_mac c))) as [->|Hne].
    + rewrite lookup_store_same. intros [= <-].
      destruct (lookup (normalise (c_mac c)) d) as [r0|] eqn:Hl; cbn [merged].
      * pose proof (reachable_ordered d Hd _ _ Hl) as Ho.
        rewrite firstTime_update, lastTime_update_ordered by exact Ho.
        destruct (IH _ _ Hl) as [[Hf Hlast] | Hb].
        -- left. destruct (firstTime r0), (lastTime r0); try discriminate.
           unfold flt, fgt. destruct t; simpl; auto.
        -- right. destruct (flt t (firstTime r0)) eqn:H1.
           ++ rewrite (below_first_not_above_last t r0 Ho H1).
              apply flt_fle. now apply flt_fle_trans with (firstTime r0).
           ++ destruct (fgt t (lastTime r0)) eqn:H2; [|exact Hb].
              rewrite fgt_flt in H2. apply flt_fle.
              now apply fle_flt_trans with (lastTime r0).
      * cbn [firstTime lastTime]. destruct (is_nan t) eqn:Ht; [now left|].
        right. now apply fle_refl.
    + rewrite lookup_store_other by assumption. apply IH.
Qed.

Lemma reachable_bounds_witness :
  exists r,
    lookup "AA" (exec (merge_all [Candidate "2.5" "aa" "" "" "";
                                  Candidate "nan" "aa" "" "" "";
                                  Candidate "1.5" "aa" "" "" ""]) [])
    = Some r /\
    fle (firstTime r) (lastTime r) = true.
Proof.
  eexists. split; [reflexivity|].
  destruct (reachable_bounds
              (exec (merge_all [Candidate "2.5" "aa" "" "" "";
                                Candidate "nan" "aa" "" "" "";
                                Candidate "1.5" "aa" "" "" ""]) [])
              "AA" _ (reachable_merge_all _ [] reachable_init) eq_refl)
    as [[Hn _] | H].
  - discriminate.
  - exact H.
Defined.

(** After a run of calls that all return, the keys of the dict are the keys
    it had and the addresses of the candidates that are not blank, in their
    normal form; started on the empty dict, the number of devices, which
    [summarise] prints, is the number of different such addresses. *)
Theorem keys_after_merges cs d d' :
  merge_all cs d = (Returned tt, d') ->
  (forall k, In k (keys d') <->
             In k (keys d) \/
             (k <> "" /\ exists c, In c cs /\ normalise (c_mac c) = k)) /\
  (d = [] ->
   List.length d' = List.length (nodup string_dec (addresses cs)) /\
   summarise d' =
   "Total bluetooth devices identified: " ++
   of_int (Z.of_nat (List.length (nodup string_dec (addresses cs))))).
Proof.
  intros H. pose proof (keys_merge_all cs d d' H) as Hk.
  split; [exact Hk|]. intros ->.
  assert (Hlen : List.length d' =
                 List.length (nodup string_dec (addresses cs))).
  { unfold keys in Hk. rewrite <- (length_map fst d').
    apply Permutation_length, NoDup_Permutation.
    - pose proof (reachable_merge_all cs [] reachable_init) as Hr.
      unfold exec in Hr. rewrite H in Hr. now apply reachable_nodup.
    - apply NoDup_nodup.
    - intros k. rewrite (Hk k), nodup_In. unfold addresses. split.
      + intros [[] | (Hne & c & Hin & Hm)]. apply filter_In. split.
        * apply in_map_iff. exists c. now split.
        * now apply truthy_true.
      + intros Hin. apply filter_In in Hin. destruct Hin as [Hin Hne].
        apply in_map_iff in Hin. destruct Hin as (c & Hm & Hin).
        right. split.
        * now apply truthy_true.
        * exists c. now split. }
  split; [exact Hlen|]. unfold summarise. now rewrite Hlen.
Qed.

Lemma keys_after_merges_witness :
  exists d',
    merge_all [Candidate "1" " aa" "" "" ""; Candidate "" " " "" "" "";
               Candidate "2" "bb" "" "" ""; Candidate "3" "AA " "" "" ""] []
    = (Returned tt, d') /\
    summarise d' = "Total bluetooth devices identified: 2".
Proof.
  eexists. split; [reflexivity|].
  destruct (keys_after_merges
              [Candidate "1" " aa" "" "" ""; Candidate "" " " "" "" "";
               Candidate "2" "bb" "" "" ""; Candidate "3" "AA " "" "" ""] []
              _ eq_refl) as [_ Hcount].
  destruct (Hcount eq_refl) as [_ Hs]. exact Hs.
Defined.

(** ** The order of the candidates *)



(** ** Files *)

Module Files.
Import PyStr PyNum Aggregator Dict Merge Lines Keys Driver.
Import Parser.

Lemma merge_all_app cs cs' d :
  merge_all (cs ++ cs') d = bind (merge_all cs) (fun _ => merge_all cs') d.
Proof.
  revert d. induction cs as [|c cs IH]; intros d; [reflexivity|].
  cbn [app merge_all]. unfold bind at 1 2 3.
  destruct (merge c d) as [[[]|e] d1]; [apply IH | reflexivity].
Qed.

Lemma merge_flush_empty d : merge (flush empty) d = (Returned tt, d).
Proof. reflexivity. Qed.

Lemma merge_blank a d :
  normalise (mac a) = "" -> merge (flush a) d = (Returned tt, d).
Proof. intros H. unfold merge, flush. cbn. now rewrite add_cases, H. Qed.

Lemma flushes_app pre post : forall a,
  flushes a (pre ++ post) =
  (flushes a pre ++ flushes (fold_left after_line pre a) post)%list.
Proof.
  induction pre as [|line pre IH]; intros a; [reflexivity|].
  cbn [app flushes fold_left]. rewrite IH.
  now destruct (is_boundary line).
Qed.

Lemma flushes_none lines : forall a,
  Forall (fun l => is_boundary l = false) lines -> flushes a lines = [].
Proof.
  intros a H. revert a. induction H as [|l lines Hl _ IH]; intros a.
  - reflexivity.
  - cbn [flushes]. rewrite Hl. apply IH.
Qed.

Lemma header_mac line : mac (header line) = "".
Proof. unfold header. now destruct (re_timestamp line). Qed.

Lemma after_boundary a line :
  is_boundary line = true -> after_line a line = header (rstrip line).
Proof. unfold after_line. now intros ->. Qed.

(** A line that is no boundary line keeps the timestamp, and keeps the
    address unless it is an address line. *)
Lemma after_detail a line :
  is_boundary line = false ->
  timestamp (after_line a line) = timestamp a /\
  (re_address (lstrip (rstrip line)) = None ->
   mac (after_line a line) = mac a).
Proof.
  unfold after_line, detail. intros ->.
  destruct (re_address _); [split; [reflexivity | discriminate]|].
  destruct (re_name _); [now split|].
  destruct (re_company _); [now split|].
  destruct (re_rssi _); now split.
Qed.

Lemma gather_details block : forall a,
  Forall (fun l => is_boundary l = false) block ->
  timestamp (fold_left after_line block a) = timestamp a.
Proof.
  intros a H. revert a. induction H as [|l block Hl _ IH]; intros a.
  - reflexivity.
  - cbn [fold_left]. rewrite IH. now apply after_detail.
Qed.

Lemma gather_no_address block : forall a,
  Forall (fun l => is_boundary l = false /\
                   re_address (lstrip (rstrip l)) = None) block ->
  mac (fold_left after_line block a) = mac a.
Proof.
  intros a H. revert a. induction H as [|l block [Hl Hm] _ IH]; intros a.
  - reflexivity.
  - cbn [fold_left]. rewrite IH. now apply after_detail.
Qed.

Lemma parse_lines_flushes lines d :
  parse_lines lines d = merge_all (flushes empty lines) d.
Proof. apply loop_merge_all. Qed.

(** The lines up to and with a boundary line, then the rest. *)
Lemma parse_lines_split pre b rest d :
  is_boundary b = true ->
  parse_lines (pre ++ b :: rest) d =
  bind (parse_lines pre)
    (fun _ => bind (merge (flush (gathered pre)))
                (fun _ => merge_all (flushes (header (rstrip b)) rest))) d.
Proof.
  intros Hb. rewrite parse_lines_flushes, flushes_app, merge_all_app.
  unfold bind at 1 2. rewrite <- parse_lines_flushes.
  destruct (parse_lines pre d) as [[[]|e] d1]; [|reflexivity].
  cbn [flushes]. rewrite Hb. cbn [merge_all].
  now rewrite (after_boundary _ b Hb).
Qed.

Lemma parse_files_candidates texts : forall d,
  parse_files texts d = merge_all (candidates_of texts) d.
Proof.
  induction texts as [|t texts IH]; intros d; [reflexivity|].
  cbn [parse_files candidates_of flat_map]. rewrite merge_all_app.
  unfold bind, parse. rewrite parse_lines_flushes.
  destruct (merge_all _ d) as [[[]|e] d1]; [apply IH | reflexivity].
Qed.

End Files.

Import Files.

(** A file gives no device when it has no boundary line, and when its only
    boundary line comes before every address line: the variables of the
    last block are never flushed, and the first flush has nothing in it. *)
Theorem single_block_gives_nothing rest d :
  Forall (fun l => Parser.is_boundary l = false) rest ->
  Parser.parse_lines rest d = (Returned tt, d) /\
  (forall pre b,
     Forall (fun l => Parser.is_boundary l = false /\
                      Parser.re_address (lstrip (rstrip l)) = None) pre ->
     Parser.is_boundary b = true ->
     Parser.parse_lines (pre ++ b :: rest) d = (Returned tt, d)).
Proof.
  intros Hrest.
  assert (Hnone : forall a, merge_all (Parser.flushes a rest) d
                            = (Returned tt, d))
    by (intros a; now rewrite flushes_none).
  split; [rewrite parse_lines_flushes; apply Hnone|].
  intros pre b Hpre Hb. rewrite (parse_lines_split pre b rest d Hb).
  unfold bind. rewrite parse_lines_flushes, flushes_none.
  - cbn [merge_all ret]. rewrite merge_blank; [apply Hnone|].
    unfold Parser.gathered. now rewrite gather_no_address.
  - eapply Forall_impl; [|exact Hpre]. now intros l [H _].
Qed.

Lemma single_block_gives_nothing_witness :
  Parser.parse_lines
    ["        Address: AA:BB:CC:DD:EE:FF (public)";
     "        RSSI: -67 dBm (0xbd)"] [] = (Returned tt, []) /\
  Parser.parse_lines
    ["        Name (complete): TestDevice";
     "> HCI Event: LE Meta Event (0x3e) plen 43   #1 [hci0] 12.5";
     "        Address: AA:BB:CC:DD:EE:FF (public)";
     "        RSSI: -67 dBm (0xbd)"] [] = (Returned tt, []).
Proof.
  destruct (single_block_gives_nothing
              ["        Address: AA:BB:CC:DD:EE:FF (public)";
               "        RSSI: -67 dBm (0xbd)"] [])
    as [Hnone Hone].
  - repeat constructor.
  - split; [exact Hnone|].
    apply (Hone ["        Name (complete): TestDevice"]
             "> HCI Event: LE Meta Event (0x3e) plen 43   #1 [hci0] 12.5").
    + repeat constructor.
    + reflexivity.
Defined.

(** A block that has an address but whose timestamp is no float literal
    (also when its boundary line gave no timestamp at all) makes [parse]
    raise [ValueError] at the next boundary line; the devices of the blocks
    before stay in the dict, the lines after are not read. *)
Theorem block_without_timestamp_raises pre b rest d d1 :
  Parser.parse_lines pre d = (Returned tt, d1) ->
  Parser.is_boundary b = true ->
  py_float (Parser.timestamp (Parser.gathered pre)) = None ->
  normalise (Parser.mac (Parser.gathered pre)) <> "" ->
  Parser.parse_lines (pre ++ b :: rest) d = (Raised ValueError, d1).
Proof.
  intros Hpre Hb Ht Hm. rewrite (parse_lines_split pre b rest d Hb).
  unfold bind. rewrite Hpre. unfold merge, Parser.flush.
  cbn [c_timestamp c_mac c_name c_manufacturer c_rssi].
  rewrite add_cases, Ht. apply truthy_true in Hm. now rewrite Hm.
Qed.

Lemma block_without_timestamp_raises_witness :
  Parser.parse_lines
    ["> HCI Event: LE Meta Event (0x3e) plen 43   #1 [hci0] 12.5";
     "        Address: AA:BB:CC:DD:EE:FF (public)";
     "@ MGMT Event: Device Found (0x0012) plen 14";
     "        LE Address: 11:22:33:44:55:66 (static)";
     "> HCI Event: LE Meta Event (0x3e) plen 43   #2 [hci0] 13.5";
     "        Address: 77:88:99:AA:BB:CC (public)"] [] =
  (Raised ValueError,
   [("AA:BB:CC:DD:EE:FF",
     Device (S754_finite false 7036874417766400 (-49))
       (S754_finite false 7036874417766400 (-49)) "" "" 5000)]) /\
  Parser.parse_lines
    ["> HCI Event [hci0] " ++ String "028" "12.5";
     "        Address: AA:BB:CC:DD:EE:FF (public)";
     "> HCI Event [hci0] 13.5"] [] = (Raised ValueError, []).
Proof.
  split;
    [|apply (block_without_timestamp_raises
               ["> HCI Event [hci0] " ++ String "028" "12.5";
                "        Address: AA:BB:CC:DD:EE:FF (public)"]
               "> HCI Event [hci0] 13.5" []);
      [reflexivity | reflexivity | reflexivity | vm_compute; discriminate]].
  apply (block_without_timestamp_raises
           ["> HCI Event: LE Meta Event (0x3e) plen 43   #1 [hci0] 12.5";
            "        Address: AA:BB:CC:DD:EE:FF (public)";
            "@ MGMT Event: Device Found (0x0012) plen 14";
            "        LE Address: 11:22:33:44:55:66 (static)"]
           "> HCI Event: LE Meta Event (0x3e) plen 43   #2 [hci0] 13.5"
           ["        Address: 77:88:99:AA:BB:CC (public)"]).
  - reflexivity.
  - reflexivity.
  - reflexivity.
  - vm_compute. discriminate.
Defined.

(** A block without an address line counts for nothing: the file without
    the lines of the block, its boundary line kept, gives the same outcome
    and the same dict. *)
Theorem block_without_address_is_ignored pre h block b rest d :
  Parser.is_boundary h = true ->
  Forall (fun l => Parser.is_boundary l = false /\
                   Parser.re_address (lstrip (rstrip l)) = None) block ->
  Parser.is_boundary b = true ->
  Parser.parse_lines (pre ++ h :: block ++ b :: rest) d =
  Parser.parse_lines (pre ++ h :: b :: rest) d.
Proof.
  intros Hh Hblock Hb.
  assert (Hdetails : Forall (fun l => Parser.is_boundary l = false) block)
    by (eapply Forall_impl; [|exact Hblock]; now intros l [H _]).
  change (pre ++ h :: block ++ b :: rest)%list
    with (pre ++ (h :: block) ++ b :: rest)%list.
  change (pre ++ h :: b :: rest)%list with (pre ++ [h] ++ b :: rest)%list.
  rewrite !app_assoc.
  rewrite (parse_lines_split (pre ++ h :: block) b rest d Hb),
    (parse_lines_split (pre ++ [h]) b rest d Hb).
  unfold bind.
  change (pre ++ h :: block)%list with (pre ++ [h] ++ block)%list.
  rewrite app_assoc.
  unfold Parser.parse_lines at 1, Parser.parse_with.
  rewrite (loop_trailing _ _ block Hdetails).
  fold (Parser.parse_with _addDeviceRecord (pre ++ [h])).
  fold (Parser.parse_lines (pre ++ [h])).
  destruct (Parser.parse_lines (pre ++ [h]) d) as [[[]|e] d1]; [|reflexivity].
  rewrite !merge_blank; [reflexivity | |].
  - unfold Parser.gathered. rewrite fold_left_app. cbn [fold_left].
    now rewrite (after_boundary _ h Hh), header_mac.
  - unfold Parser.gathered. rewrite !fold_left_app. cbn [fold_left].
    rewrite (after_boundary _ h Hh), gather_no_address by exact Hblock.
    now rewrite header_mac.
Qed.

Lemma block_without_address_is_ignored_witness :
  Parser.parse_lines
    ["> HCI Event: LE Meta Event (0x3e) plen 43   #1 [hci0] 12.5";
     "        Address: AA:BB:CC:DD:EE:FF (public)";
     "< HCI Command: LE Set Scan Enable (0x08|0x000c) plen 2";
     "        Name (complete): Nobody";
     "        RSSI: -20 dBm (0xec)";
     "> HCI Event: Command Complete (0x0e) plen 4   #3 [hci0] 13.5"] [] =
  Parser.parse_lines
    ["> HCI Event: LE Meta Event (0x3e) plen 43   #1 [hci0] 12.5";
     "        Address: AA:BB:CC:DD:EE:FF (public)";
     "< HCI Command: LE Set Scan Enable (0x08|0x000c) plen 2";
     "> HCI Event: Command Complete (0x0e) plen 4   #3 [hci0] 13.5"] [].
Proof.
  apply (block_without_address_is_ignored
           ["> HCI Event: LE Meta Event (0x3e) plen 43   #1 [hci0] 12.5";
            "        Address: AA:BB:CC:DD:EE:FF (public)"]
           "< HCI Command: LE Set Scan Enable (0x08|0x000c) plen 2"
           ["        Name (complete): Nobody"; "        RSSI: -20 dBm (0xec)"]
           "> HCI Event: Command Complete (0x0e) plen 4   #3 [hci0] 13.5"
           [] []).
  - reflexivity.
  - repeat constructor.
  - reflexivity.
Defined.

(** Parsing files one after the other is the run of the calls for the
    candidates that their boundary lines flush, every file starting with
    empty variables; whether it returns or raises, the keys found before
    stay in the dict, in place, and the dict stays one that the parser
    object can hold. *)
Theorem parse_files_is_a_run_of_merges texts d :
  parse_files texts d = merge_all (candidates_of texts) d /\
  (reachable d -> reachable (exec (parse_files texts) d)) /\
  (exists l, keys (exec (parse_files texts) d) = (keys d ++ l)%list).
Proof.
  split; [apply parse_files_candidates|]. unfold exec.
  rewrite parse_files_candidates. split.
  - apply reachable_merge_all.
  - apply keys_prefix_merge_all.
Qed.

(** ** The patterns on well-formed lines *)

Module Patterns.
Import PyStr PyNum Aggregator Driver Strip.
Import Parser.

Lemma append_assoc (a b c : string) : (a ++ b) ++ c = a ++ (b ++ c).
Proof. induction a as [|x a IH]; simpl; [reflexivity | now rewrite IH]. Qed.

Lemma append_empty (a : string) : a ++ "" = a.
Proof. induction a as [|x a IH]; simpl; [reflexivity | now rewrite IH]. Qed.

Lemma contains_char_cons c x s :
  contains_char c (String x s) = Ascii.eqb c x || contains_char c s.
Proof. reflexivity. Qed.

Lemma contains_char_app c a b :
  contains_char c (a ++ b) = contains_char c a || contains_char c b.
Proof.
  induction a as [|x a IH]; [reflexivity|].
  cbn [append]. rewrite !contains_char_cons, IH. apply orb_assoc.
Qed.

Lemma startswith_app p s : startswith p (p ++ s) = Some s.
Proof.
  induction p as [|c p IH]; simpl; [reflexivity|].
  now rewrite Ascii.eqb_refl.
Qed.

(** A literal does not match where the subject starts with another
    character. *)
Lemma lit_head {A} c p (k : matcher A) x s :
  Ascii.eqb c x = false -> lit (String c p) k (String x s) = None.
Proof. intros H. unfold lit. simpl. now rewrite H. Qed.

(** The group of [(.+?)] is the shortest run after which the rest of the
    pattern matches. *)
Lemma lazy_dot_shortest {A} (k : matcher A) rest a x :
  x <> "" ->
  contains_char newline x = false ->
  k rest = Some a ->
  (forall x1 x2, x = x1 ++ x2 -> x1 <> "" -> x2 <> "" ->
                 k (x2 ++ rest) = None) ->
  lazy_dot k (x ++ rest) = Some (x, a).
Proof.
  induction x as [|c x IH]; [congruence|]. intros _ Hnl Hk Hmin.
  rewrite contains_char_cons in Hnl. apply orb_false_elim in Hnl.
  destruct Hnl as [Hc Hnl]. cbn [append lazy_dot].
  rewrite Ascii.eqb_sym, Hc.
  destruct x as [|c' x].
  - cbn [append]. now rewrite Hk.
  - rewrite (Hmin (String c "") (String c' x)) by (reflexivity || discriminate).
    rewrite IH; [reflexivity | discriminate | exact Hnl | exact Hk |].
    intros x1 x2 E H1 H2.
    apply (Hmin (String c x1) x2); [|discriminate|exact H2].
    cbn [append]. now rewrite E.
Qed.

(** A run without the first character of a literal is not cut short by
    it. *)
Lemma lazy_dot_until {A} c p (k : matcher A) rest a x :
  x <> "" ->
  contains_char newline x = false ->
  contains_char c x = false ->
  lit (String c p) k rest = Some a ->
  lazy_dot (lit (String c p) k) (x ++ rest) = Some (x, a).
Proof.
  intros Hx Hnl Hc Hk. apply lazy_dot_shortest; auto.
  intros x1 x2 -> _ H2. rewrite contains_char_app in Hc.
  apply orb_false_elim in Hc. destruct Hc as [_ Hc].
  destruct x2 as [|y x2]; [congruence|].
  rewrite contains_char_cons in Hc. apply orb_false_elim in Hc.
  cbn [append]. now apply lit_head.
Qed.

Lemma eol_inside x :
  x <> "" -> contains_char newline x = false -> eol x = None.
Proof.
  destruct x as [|c [|c' x]]; [congruence| |reflexivity].
  intros _ H. rewrite contains_char_cons in H. apply orb_false_elim in H.
  simpl. rewrite Ascii.eqb_sym. now rewrite (proj1 H).
Qed.

Lemma lazy_dot_to_end x :
  x <> "" -> contains_char newline x = false ->
  lazy_dot eol x = Some (x, tt).
Proof.
  intros Hx Hnl. rewrite <- (append_empty x) at 1.
  apply lazy_dot_shortest; auto.
  intros x1 x2 -> _ H2. rewrite append_empty. apply eol_inside; [exact H2|].
  rewrite contains_char_app in Hnl. now apply orb_false_elim in Hnl.
Qed.

(** The group that ends at the last parenthesis of the line. *)
Lemma lazy_dot_paren x :
  x <> "" -> contains_char newline x = false ->
  lazy_dot (lit ")" eol) (x ++ ")") = Some (x, tt).
Proof.
  intros Hx Hnl. apply lazy_dot_shortest; auto.
  intros x1 x2 -> _ H2. unfold lit.
  destruct x2 as [|y x2]; [congruence|]. cbn [append startswith].
  destruct (Ascii.eqb ")" y); [|reflexivity]. cbn [startswith].
  apply eol_inside.
  - destruct x2; discriminate.
  - rewrite !contains_char_app, contains_char_cons in Hnl.
    apply orb_false_elim in Hnl. destruct Hnl as [_ Hnl].
    apply orb_false_elim in Hnl. destruct Hnl as [_ Hnl].
    rewrite contains_char_app, Hnl. reflexivity.
Qed.

Lemma search_skips {A} (k : matcher A) c p a s :
  contains_char c a = false ->
  search (lit (String c p) k) (a ++ s) = search (lit (String c p) k) s.
Proof.
  intros H. induction a as [|x a IH]; [reflexivity|].
  rewrite contains_char_cons in H. apply orb_false_elim in H.
  destruct H as [Hx Ha]. cbn [append]. 
  change (search (lit (String c p) k) (String x (a ++ s)))
    with (match lit (String c p) k (String x (a ++ s)) with
          | Some v => Some v
          | None => search (lit (String c p) k) (a ++ s)
          end).
  rewrite (lit_head c p k x _ Hx). now apply IH.
Qed.

Lemma lit_app {A} p (k : matcher A) s : lit p k (p ++ s) = k s.
Proof. unfold lit. now rewrite startswith_app. Qed.

(** A company name without an opening parenthesis is not cut short by the
    space and parenthesis that start the identifier. *)
Lemma lazy_dot_company {A} (k : matcher A) rest a x :
  x <> "" ->
  contains_char newline x = false ->
  contains_char "(" x = false ->
  k rest = Some a ->
  lazy_dot (lit " (" k) (x ++ " (" ++ rest) = Some (x, a).
Proof.
  intros Hx Hnl Hp Hk.
  apply lazy_dot_shortest; [exact Hx | exact Hnl | exact Hk |].
  intros x1 x2 -> _ H2. rewrite contains_char_app in Hp.
  apply orb_false_elim in Hp. destruct Hp as [_ Hp].
  destruct x2 as [|y x2]; [congruence|].
  rewrite contains_char_cons in Hp. apply orb_false_elim in Hp.
  destruct Hp as [_ Hp]. unfold lit. cbn [append startswith].
  destruct (Ascii.eqb " " y); [|reflexivity].
  destruct x2 as [|z x2]; [reflexivity|].
  rewrite contains_char_cons in Hp. apply orb_false_elim in Hp.
  cbn [append startswith]. now rewrite (proj1 Hp).
Qed.

Lemma lstrip_indent w s : all_space w = true -> lstrip (w ++ s) = lstrip s.
Proof.
  unfold all_space. induction w as [|c w IH]; [reflexivity|].
  simpl. intros H. apply andb_prop in H. destruct H as [Hc Hw].
  rewrite Hc. now apply IH.
Qed.

Lemma rstrip_app a b : rstrip b <> "" -> rstrip (a ++ b) = a ++ rstrip b.
Proof.
  intros Hb. induction a as [|c a IH]; [reflexivity|].
  cbn [append rstrip]. rewrite IH.
  destruct (a ++ rstrip b) eqn:E; [|reflexivity].
  destruct a; [contradiction | discriminate].
Qed.

Lemma re_address_line a rest :
  a <> "" -> contains_char newline a = false -> contains_char " " a = false ->
  re_address ("Address: " ++ a ++ " " ++ rest) = Some a.
Proof.
  intros Ha Hnl Hsp. unfold re_address. cbv zeta.
  change (lit "LE " (lit "Address: " (lazy_dot (lit " " done)))
            ("Address: " ++ a ++ " " ++ rest))
    with (@None (string * unit)).
  change (lit "BR/EDR " (lit "Address: " (lazy_dot (lit " " done)))
            ("Address: " ++ a ++ " " ++ rest))
    with (@None (string * unit)).
  rewrite lit_app, (lazy_dot_until " " "" done (" " ++ rest) tt); auto.
Qed.

Lemma re_name_line n :
  n <> "" -> contains_char newline n = false ->
  re_name ("Name (complete): " ++ n) = Some n.
Proof.
  intros Hn Hnl. unfold re_name. now rewrite lit_app, lazy_dot_to_end.
Qed.

Lemma re_company_line m id :
  m <> "" -> contains_char newline m = false -> contains_char "(" m = false ->
  id <> "" -> contains_char newline id = false ->
  re_company ("Company: " ++ m ++ " (" ++ id ++ ")") = Some m.
Proof.
  intros Hm Hnl Hp Hid Hnl'. unfold re_company. rewrite lit_app.
  rewrite (lazy_dot_company _ (id ++ ")") (id, tt)); auto.
  now apply lazy_dot_paren.
Qed.

Lemma re_rssi_line x rest :
  x <> "" -> contains_char newline x = false -> contains_char " " x = false ->
  re_rssi ("RSSI: " ++ x ++ " dBm" ++ rest) = Some x.
Proof.
  intros Hx Hnl Hsp. unfold re_rssi.
  rewrite lit_app, (lazy_dot_until " " "dBm" done (" dBm" ++ rest) tt); auto.
Qed.

Lemma re_timestamp_line h t :
  contains_char "]" h = false ->
  t <> "" -> contains_char newline t = false ->
  re_timestamp (h ++ "] " ++ t) = Some t.
Proof.
  intros Hh Ht Hnl. unfold re_timestamp. rewrite search_skips by exact Hh.
  change (search (lit "] " (lazy_dot eol)) ("] " ++ t))
    with (match lit "] " (lazy_dot eol) ("] " ++ t) with
          | Some v => Some v
          | None => search (lit "] " (lazy_dot eol)) (" " ++ t)
          end).
  now rewrite lit_app, lazy_dot_to_end.
Qed.

(** The search for [] ] goes past a prefix in which [] ] does not occur,
    closing brackets or not. *)
Lemma search_first {A} (k : matcher A) a s :
  contains "] " a = false ->
  search (lit "] " k) (a ++ "] " ++ s) = search (lit "] " k) ("] " ++ s).
Proof.
  induction a as [|x a IH]; [reflexivity|]. intros H.
  change (contains "] " (String x a))
    with (match startswith "] " (String x a) with
          | Some _ => true
          | None => contains "] " a
          end) in H.
  destruct (startswith "] " (String x a)) eqn:E; [discriminate|].
  change (match lit "] " k (String x (a ++ "] " ++ s)) with
          | Some v => Some v
          | None => search (lit "] " k) (a ++ "] " ++ s)
          end = search (lit "] " k) ("] " ++ s)).
  assert (N : lit "] " k (String x (a ++ "] " ++ s)) = None).
  { unfold lit. cbn [startswith] in *.
    destruct (Ascii.eqb "]" x); [|reflexivity].
    destruct a as [|y a]; [reflexivity|].
    cbn [append startswith] in *.
    destruct (Ascii.eqb " " y); [discriminate | reflexivity]. }
  rewrite N. now apply IH.
Qed.

Lemma boundary_app h s :
  re_boundary h = true -> is_boundary (h ++ s) = true.
Proof.
  rewrite Lines.boundary_first_char. destruct h; [discriminate|]. now simpl.
Qed.

Lemma indented w s :
  w <> "" -> all_space w = true -> is_boundary (w ++ s) = false.
Proof.
  rewrite Lines.boundary_first_char. destruct w as [|c w]; [congruence|].
  unfold all_space. simpl. intros _ H. apply andb_prop in H.
  now rewrite (proj1 H).
Qed.

End Patterns.

Import Patterns.

(** The timestamp of a boundary line is all that follows its first [] ]:
    what stands before it is skipped, closing brackets that no space
    follows among it, and later brackets are part of the timestamp. *)
Theorem timestamp_after_first_bracket a t :
  contains "] " a = false ->
  t <> "" ->
  contains_char Parser.newline t = false ->
  Parser.re_timestamp (a ++ "] " ++ t) = Some t.
Proof.
  intros Ha Ht Hnl. unfold Parser.re_timestamp.
  rewrite search_first by exact Ha.
  change (Parser.search (Parser.lit "] " (Parser.lazy_dot Parser.eol))
            ("] " ++ t))
    with (match Parser.lit "] " (Parser.lazy_dot Parser.eol) ("] " ++ t) with
          | Some v => Some v
          | None =>
              Parser.search (Parser.lit "] " (Parser.lazy_dot Parser.eol))
                (" " ++ t)
          end).
  unfold Parser.lit at 1. rewrite startswith_app.
  now rewrite lazy_dot_to_end.
Qed.

Lemma timestamp_after_first_bracket_witness :
  Parser.re_timestamp "= x]y [hci0] 12.5" = Some "12.5" /\
  Parser.re_timestamp "> HCI Event [hci0]] ...] 1680000000.0" =
  Some "...] 1680000000.0".
Proof.
  split.
  - apply (timestamp_after_first_bracket "= x]y [hci0" "12.5");
      [reflexivity | discriminate | reflexivity].
  - apply (timestamp_after_first_bracket "> HCI Event [hci0]"
             "...] 1680000000.0"); [reflexivity | discriminate | reflexivity].
Defined.

(** The four patterns of the detail lines read the lines that [btmon]
    writes: an address without a space, with or without the [LE] or
    [BR/EDR] prefix, up to the space after it; a name, to the end of the
    line; a company without an opening parenthesis, up to the identifier
    in parentheses that ends the line; an rssi without a space, up to
    [dBm]. *)
Theorem detail_patterns_read v rest :
  v <> "" ->
  contains_char Parser.newline v = false ->
  (contains_char " " v = false ->
   Parser.re_address ("Address: " ++ v ++ " " ++ rest) = Some v /\
   Parser.re_address ("LE Address: " ++ v ++ " " ++ rest) = Some v /\
   Parser.re_address ("BR/EDR Address: " ++ v ++ " " ++ rest) = Some v /\
   Parser.re_rssi ("RSSI: " ++ v ++ " dBm" ++ rest) = Some v) /\
  Parser.re_name ("Name (complete): " ++ v) = Some v /\
  (contains_char "(" v = false ->
   rest <> "" -> contains_char Parser.newline rest = false ->
   Parser.re_company ("Company: " ++ v ++ " (" ++ rest ++ ")") = Some v).
Proof.
  intros Hv Hnl. split; [|split].
  - intros Hsp.
    assert (H : Parser.lazy_dot (Parser.lit " " Parser.done) (v ++ " " ++ rest)
                = Some (v, tt)) by now apply lazy_dot_until.
    assert (H' : Parser.lazy_dot (Parser.lit " dBm" Parser.done)
                   (v ++ " dBm" ++ rest) = Some (v, tt))
      by now apply lazy_dot_until.
    unfold Parser.re_address, Parser.re_rssi. cbv zeta.
    set (K := Parser.lit "Address: "
                (Parser.lazy_dot (Parser.lit " " Parser.done))).
    repeat split.
    + change (Parser.lit "LE " K ("Address: " ++ v ++ " " ++ rest))
        with (@None (string * unit)).
      change (Parser.lit "BR/EDR " K ("Address: " ++ v ++ " " ++ rest))
        with (@None (string * unit)).
      unfold K. now rewrite lit_app, H.
    + change ("LE Address: " ++ v ++ " " ++ rest)
        with ("LE " ++ "Address: " ++ v ++ " " ++ rest).
      rewrite lit_app. unfold K. now rewrite lit_app, H.
    + change (Parser.lit "LE " K ("BR/EDR Address: " ++ v ++ " " ++ rest))
        with (@None (string * unit)).
      change ("BR/EDR Address: " ++ v ++ " " ++ rest)
        with ("BR/EDR " ++ "Address: " ++ v ++ " " ++ rest).
      rewrite lit_app. unfold K. now rewrite lit_app, H.
    + now rewrite lit_app, H'.
  - unfold Parser.re_name. now rewrite lit_app, lazy_dot_to_end.
  - intros Hp Hrest Hnl'. unfold Parser.re_company. rewrite lit_app.
    rewrite (lazy_dot_company _ (rest ++ ")") (rest, tt)); auto.
    now apply lazy_dot_paren.
Qed.

Lemma detail_patterns_read_witness :
  Parser.re_address ("LE Address: " ++ "AA:BB:CC:DD:EE:FF" ++ " " ++ "(public)")
  = Some "AA:BB:CC:DD:EE:FF" /\
  Parser.re_rssi ("RSSI: " ++ "-67" ++ " dBm" ++ " (0xbd)") = Some "-67" /\
  Parser.re_name ("Name (complete): " ++ "Test Device") = Some "Test Device" /\
  Parser.re_company ("Company: " ++ "Apple, Inc." ++ " (" ++ "76" ++ ")")
  = Some "Apple, Inc.".
Proof.
  destruct (detail_patterns_read "AA:BB:CC:DD:EE:FF" "(public)")
    as [Haddr _]; [discriminate | reflexivity |].
  destruct (Haddr eq_refl) as (_ & Hle & _ & _).
  destruct (detail_patterns_read "-67" " (0xbd)")
    as [Hrssi _]; [discriminate | reflexivity |].
  destruct (Hrssi eq_refl) as (_ & _ & _ & Hdbm).
  destruct (detail_patterns_read "Test Device" "")
    as (_ & Hname & _); [discriminate | reflexivity |].
  destruct (detail_patterns_read "Apple, Inc." "76")
    as (_ & _ & Hcompany); [discriminate | reflexivity |].
  split; [exact Hle|]. split; [exact Hdbm|]. split; [exact Hname|].
  apply Hcompany; [reflexivity | discriminate | reflexivity].
Defined.

(** A block as [btmon] writes it, then a boundary line: the call that the
    boundary line makes has the five fields of the block, and it is what
    parsing these lines does to the dict. The boundary line of the block
    has its first closing bracket before the timestamp; the detail lines
    are indented; the address and the rssi have no space, the company no
    opening parenthesis, no field a newline, and the timestamp and the name
    do not end in whitespace. *)
Theorem block_round_trip h t w a n m id x b d :
  Parser.re_boundary h = true ->
  contains_char "]" h = false ->
  t <> "" -> contains_char Parser.newline t = false -> rstrip t = t ->
  w <> "" -> all_space w = true ->
  a <> "" -> contains_char Parser.newline a = false ->
  contains_char " " a = false ->
  n <> "" -> contains_char Parser.newline n = false -> rstrip n = n ->
  m <> "" -> contains_char Parser.newline m = false ->
  contains_char "(" m = false ->
  id <> "" -> contains_char Parser.newline id = false ->
  x <> "" -> contains_char Parser.newline x = false ->
  contains_char " " x = false ->
  Parser.is_boundary b = true ->
  Parser.gathered
    [h ++ "] " ++ t;
     w ++ "Address: " ++ a ++ " (public)";
     w ++ "Name (complete): " ++ n;
     w ++ "Company: " ++ m ++ " (" ++ id ++ ")";
     w ++ "RSSI: " ++ x ++ " dBm"] = Parser.Accumulators t a n m x /\
  Parser.parse_lines
    [h ++ "] " ++ t;
     w ++ "Address: " ++ a ++ " (public)";
     w ++ "Name (complete): " ++ n;
     w ++ "Company: " ++ m ++ " (" ++ id ++ ")";
     w ++ "RSSI: " ++ x ++ " dBm";
     b] d = merge (Candidate t a n m x) d.
Proof.
  intros Hh Hbr Ht Htnl Htr Hw Hws Ha Hanl Hasp Hn Hnnl Hnr Hm Hmnl Hmp
         Hid Hidnl Hx Hxnl Hxsp Hb.
  assert (L1 : Parser.after_line Parser.empty (h ++ "] " ++ t)
               = Parser.Accumulators t "" "" "" "").
  { unfold Parser.after_line. rewrite (boundary_app h _ Hh).
    rewrite <- append_assoc, rstrip_app by (rewrite Htr; exact Ht).
    rewrite Htr, append_assoc. unfold Parser.header.
    now rewrite re_timestamp_line. }
  assert (L2 : forall c, Parser.after_line c
                           (w ++ "Address: " ++ a ++ " (public)")
               = Parser.Accumulators (Parser.timestamp c) a (Parser.name c)
                   (Parser.manufacturer c) (Parser.rssi c)).
  { intros c. unfold Parser.after_line. rewrite (indented w _ Hw Hws).
    change (w ++ "Address: " ++ a ++ " (public)")
      with (w ++ "Address: " ++ a ++ " " ++ "(public)").
    rewrite <- !append_assoc, rstrip_app by discriminate.
    change (rstrip "(public)") with "(public)".
    rewrite !append_assoc. unfold Parser.detail.
    rewrite (lstrip_indent w _ Hws).
    change (lstrip ("Address: " ++ a ++ " " ++ "(public)"))
      with ("Address: " ++ a ++ " " ++ "(public)").
    now rewrite re_address_line. }
  assert (L3 : forall c, Parser.after_line c (w ++ "Name (complete): " ++ n)
               = Parser.Accumulators (Parser.timestamp c) (Parser.mac c) n
                   (Parser.manufacturer c) (Parser.rssi c)).
  { intros c. unfold Parser.after_line. rewrite (indented w _ Hw Hws).
    rewrite <- !append_assoc, rstrip_app by (rewrite Hnr; exact Hn).
    rewrite Hnr, !append_assoc. unfold Parser.detail.
    rewrite (lstrip_indent w _ Hws).
    change (lstrip ("Name (complete): " ++ n)) with ("Name (complete): " ++ n).
    change (Parser.re_address ("Name (complete): " ++ n)) with (@None string).
    now rewrite re_name_line. }
  assert (L4 : forall c, Parser.after_line c
                           (w ++ "Company: " ++ m ++ " (" ++ id ++ ")")
               = Parser.Accumulators (Parser.timestamp c) (Parser.mac c)
                   (Parser.name c) m (Parser.rssi c)).
  { intros c. unfold Parser.after_line. rewrite (indented w _ Hw Hws).
    rewrite <- !append_assoc, rstrip_app by discriminate.
    change (rstrip ")") with ")".
    rewrite !append_assoc. unfold Parser.detail.
    rewrite (lstrip_indent w _ Hws).
    change (lstrip ("Company: " ++ m ++ " (" ++ id ++ ")"))
      with ("Company: " ++ m ++ " (" ++ id ++ ")").
    change (Parser.re_address ("Company: " ++ m ++ " (" ++ id ++ ")"))
      with (@None string).
    change (Parser.re_name ("Company: " ++ m ++ " (" ++ id ++ ")"))
      with (@None string).
    now rewrite re_company_line. }
  assert (L5 : forall c, Parser.after_line c (w ++ "RSSI: " ++ x ++ " dBm")
               = Parser.Accumulators (Parser.timestamp c) (Parser.mac c)
                   (Parser.name c) (Parser.manufacturer c) x).
  { intros c. unfold Parser.after_line. rewrite (indented w _ Hw Hws).
    rewrite <- !append_assoc, rstrip_app by discriminate.
    change (rstrip " dBm") with " dBm".
    rewrite !append_assoc. unfold Parser.detail.
    rewrite (lstrip_indent w _ Hws).
    change (lstrip ("RSSI: " ++ x ++ " dBm"))
      with ("RSSI: " ++ x ++ " dBm").
    change (Parser.re_address ("RSSI: " ++ x ++ " dBm")) with (@None string).
    change (Parser.re_name ("RSSI: " ++ x ++ " dBm")) with (@None string).
    change (Parser.re_company ("RSSI: " ++ x ++ " dBm")) with (@None string).
    rewrite <- (append_empty (" dBm")).
    rewrite re_rssi_line by assumption. reflexivity. }
  assert (G : Parser.gathered
                [h ++ "] " ++ t;
                 w ++ "Address: " ++ a ++ " (public)";
                 w ++ "Name (complete): " ++ n;
                 w ++ "Company: " ++ m ++ " (" ++ id ++ ")";
                 w ++ "RSSI: " ++ x ++ " dBm"]
              = Parser.Accumulators t a n m x).
  { unfold Parser.gathered. cbn [fold_left].
    rewrite L1, L2, L3, L4, L5. reflexivity. }
  split; [exact G|].
  change [h ++ "] " ++ t;
          w ++ "Address: " ++ a ++ " (public)";
          w ++ "Name (complete): " ++ n;
          w ++ "Company: " ++ m ++ " (" ++ id ++ ")";
          w ++ "RSSI: " ++ x ++ " dBm"; b]
    with (List.app
            [h ++ "] " ++ t;
             w ++ "Address: " ++ a ++ " (public)";
             w ++ "Name (complete): " ++ n;
             w ++ "Company: " ++ m ++ " (" ++ id ++ ")";
             w ++ "RSSI: " ++ x ++ " dBm"] [b]).
  rewrite (parse_lines_split _ b [] d Hb), G. unfold bind.
  rewrite parse_lines_flushes. cbn [Parser.flushes].
  rewrite (boundary_app h _ Hh), !(indented w _ Hw Hws).
  cbn [merge_all]. unfold bind. rewrite merge_flush_empty.
  cbn [ret merge_all]. unfold Parser.flush.
  cbn [Parser.timestamp Parser.mac Parser.name Parser.manufacturer
       Parser.rssi].
  now destruct (merge (Candidate t a n m x) d) as [[[]|e] d1].
Qed.

Lemma block_round_trip_witness :
  Parser.parse_lines
    ["> HCI Event: LE Meta Event (0x3e) plen 43   #1 [hci0] 12.5";
     "        Address: AA:BB:CC:DD:EE:FF (public)";
     "        Name (complete): Test Device";
     "        Company: Apple, Inc. (76)";
     "        RSSI: -67 dBm";
     "= end"] [] =
  (Returned tt,
   [("AA:BB:CC:DD:EE:FF",
     Device (S754_finite false 7036874417766400 (-49))
       (S754_finite false 7036874417766400 (-49)) "Test Device"
       "Apple, Inc." (-67))]).
Proof.
  destruct (block_round_trip
              "> HCI Event: LE Meta Event (0x3e) plen 43   #1 [hci0" "12.5"
              "        " "AA:BB:CC:DD:EE:FF" "Test Device" "Apple, Inc." "76"
              "-67" "= end" [])
    as [_ H]; [reflexivity || discriminate .. | ].
  exact H.
Defined.

(** ** The table and the decision to write it *)

Module Table.
Import PyStr PyNum Aggregator Dict Driver Rows Patterns.
Import Report.

Lemma lower_is_y s : lower s = "y" <-> s = "y" \/ s = "Y".
Proof.
  split; [|intros [-> | ->]; reflexivity].
  destruct s as [|c [|c' s]]; try discriminate.
  destruct c as [[] [] [] [] [] [] [] []]; try discriminate; auto.
Qed.

Lemma lower_is_n s : lower s = "n" <-> s = "n" \/ s = "N".
Proof.
  split; [|intros [-> | ->]; reflexivity].
  destruct s as [|c [|c' s]]; try discriminate.
  destruct c as [[] [] [] [] [] [] [] []]; try discriminate; auto.
Qed.

Lemma yesNo_skips skipped : forall frames answers,
  Forall (fun s => lower s <> "y" /\ lower s <> "n") skipped ->
  _yesNo (List.length skipped + frames) (skipped ++ answers) =
  _yesNo frames answers.
Proof.
  intros frames answers. induction 1 as [|s skipped [Hy Hn] _ IH];
    [reflexivity|].
  cbn [app _yesNo List.length Nat.add].
  apply String.eqb_neq in Hy, Hn. now rewrite Hy, Hn.
Qed.

Lemma yesNo_too_deep skipped : forall answers,
  Forall (fun s => lower s <> "y" /\ lower s <> "n") skipped ->
  _yesNo (List.length skipped) (skipped ++ answers) = (Too_deep, answers).
Proof.
  intros answers H. rewrite <- (Nat.add_0_r (List.length skipped)).
  now rewrite yesNo_skips.
Qed.

(** Every key of the dict has a value, so that a row is made for every
    item. *)
Lemma rows_of_items l d :
  incl l (keys d) ->
  List.length
    (flat_map (fun mac => match lookup mac d with
                          | Some r => [row_of mac r]
                          | None => []
                          end) l) = List.length l.
Proof.
  induction l as [|k l IH]; intros H; [reflexivity|].
  cbn [flat_map]. rewrite length_app, IH.
  - assert (Hk : In k (keys d)) by (apply H; now left).
    apply lookup_keys in Hk. now destruct (lookup k d).
  - intros x Hx. apply H. now right.
Qed.

Lemma lookup_in k v d : NoDup (keys d) -> In (k, v) d -> lookup k d = Some v.
Proof.
  induction d as [|[k' v'] d IH]; [intros _ []|].
  cbn [keys map fst]. intros Hn [H | H]; inversion Hn as [|? ? Hk Hn']; subst.
  - injection H as -> ->. simpl. now rewrite String.eqb_refl.
  - simpl. destruct (String.eqb_spec k k') as [->|_]; [|now apply IH].
    exfalso. apply Hk. change k' with (fst (k', v)). now apply in_map.
Qed.

Lemma rows_map d :
  NoDup (keys d) ->
  rows d = map (fun p => row_of (fst p) (snd p)) d.
Proof.
  intros Hn. unfold rows, keys. rewrite flat_map_concat_map, map_map.
  assert (H : forall l, incl l d ->
            List.concat (map (fun p => match lookup (fst p) d with
                                  | Some r => [row_of (fst p) r]
                                  | None => []
                                  end) l)
            = map (fun p => row_of (fst p) (snd p)) l).
  { induction l as [|[k v] l IH]; intros Hl; [reflexivity|].
    cbn [map List.concat fst snd]. rewrite (lookup_in k v d Hn).
    - cbn [app]. f_equal. apply IH. intros x Hx. apply Hl. now right.
    - apply Hl. now left. }
  apply H, incl_refl.
Qed.

Lemma digits_no_space d :
  contains_char " " (DecimalString.NilEmpty.string_of_uint d) = false.
Proof. induction d; simpl; auto. Qed.

Lemma format_no_space z : contains_char " " (of_int z) = false.
Proof.
  unfold of_int, DecimalString.NilZero.string_of_int,
    DecimalString.NilZero.string_of_uint.
  destruct (Z.to_int z) as [u|u]; destruct u; try reflexivity;
    apply (digits_no_space (_ u)) || (cbn; apply (digits_no_space u)).
Qed.

(** The part of a sort key before its first space, and the part after. *)
Lemma key_split a a' b b' :
  contains_char " " a = false -> contains_char " " a' = false ->
  a ++ " " ++ b = a' ++ " " ++ b' -> b = b'.
Proof.
  revert a'. induction a as [|c a IH]; intros [|c' a'] Ha Ha' E.
  - now injection E.
  - cbn in E. injection E as <- _.
    rewrite contains_char_cons in Ha'. discriminate.
  - cbn in E. injection E as -> _.
    rewrite contains_char_cons in Ha. discriminate.
  - cbn [append] in E. injection E as _ E.
    rewrite contains_char_cons in Ha, Ha'.
    apply orb_false_elim in Ha, Ha'. now apply (IH a').
Qed.

Lemma sort_key_mac mac r mac' r' :
  sort_key (row_of mac r) = sort_key (row_of mac' r') -> mac = mac'.
Proof.
  unfold sort_key, row_of. cbn [r_rssi r_mac]. apply key_split.
  - destruct (255 <? Z.abs (rssi r)); [reflexivity | apply format_no_space].
  - destruct (255 <? Z.abs (rssi r')); [reflexivity | apply format_no_space].
Qed.

(** A sorted list is determined by its items when no two of them are
    equivalent in the order. *)
Lemma sorted_unique (l : list row) : forall l',
  StronglySorted key_le l -> StronglySorted key_le l' ->
  Permutation l l' ->
  (forall x y, In x l -> In y l -> key_le x y -> key_le y x -> x = y) ->
  l = l'.
Proof.
  induction l as [|x l IH]; intros l' Hs Hs' Hp Ha.
  - now apply Permutation_nil in Hp.
  - destruct l' as [|y l'];
      [apply Permutation_sym, Permutation_nil in Hp; discriminate|].
    inversion Hs as [|? ? Hs1 Hx]; subst.
    inversion Hs' as [|? ? Hs1' Hy]; subst.
    rewrite Forall_forall in Hx, Hy.
    assert (Hxy : x = y).
    { assert (Hin : In y (x :: l))
        by (apply (Permutation_in _ (Permutation_sym Hp)); now left).
      assert (Hin' : In x (y :: l'))
        by (apply (Permutation_in _ Hp); now left).
      destruct Hin as [E | Hin]; [exact E|].
      destruct Hin' as [E | Hin']; [now symmetry|].
      apply Ha; [now left | now right | now apply Hx | now apply Hy]. }
    subst y. f_equal. apply IH; auto.
    + now apply Permutation_cons_inv with x.
    + intros a b Hina Hinb. apply Ha; now right.
Qed.

End Table.

Import Table.

(** [_yesNo] skips every line that is neither [y] nor [n] in either case,
    answers with the first one that is, and leaves the lines after it
    unread. When no line is one of the two, it ends in the [EOFError] of
    [input]; when more lines are skipped than calls can be nested, in a
    [RecursionError], with the lines after the skipped ones unread. *)
Theorem yesNo_first_answer skipped frames :
  Forall (fun s => lower s <> "y" /\ lower s <> "n") skipped ->
  _yesNo (List.length skipped + S frames) skipped = (Eof, []) /\
  (forall rest,
     _yesNo (List.length skipped) (skipped ++ rest) = (Too_deep, rest)) /\
  (forall yn rest,
     (yn = "y" \/ yn = "Y" ->
      _yesNo (List.length skipped + S frames) (skipped ++ yn :: rest)
      = (Answer true, rest)) /\
     (yn = "n" \/ yn = "N" ->
      _yesNo (List.length skipped + S frames) (skipped ++ yn :: rest)
      = (Answer false, rest))).
Proof.
  intros H. split; [|split].
  - rewrite <- (app_nil_r skipped) at 2. now rewrite yesNo_skips.
  - intros rest. now apply yesNo_too_deep.
  - intros yn rest. rewrite yesNo_skips by exact H. cbn [_yesNo]. split.
    + intros Hy. apply lower_is_y in Hy. now rewrite Hy.
    + intros Hn. apply lower_is_n in Hn. now rewrite Hn.
Qed.

Lemma yesNo_first_answer_witness :
  _yesNo 10 ["yes"; ""; " y"; "N"; "y"] = (Answer false, ["y"]) /\
  _yesNo 3 ["yes"; ""; " y"; "N"; "y"] = (Too_deep, ["N"; "y"]).
Proof.
  destruct (yesNo_first_answer ["yes"; ""; " y"] 6) as (_ & Hdeep & H).
  - repeat constructor; discriminate.
  - split.
    + apply (proj2 (H "N" ["y"])). now right.
    + apply (Hdeep ["N"; "y"]).
Defined.

(** [report] writes nothing and asks nothing when there is no device; with
    devices it writes the table without asking when the file does not exist
    or [overwrite] is set; otherwise it asks, writes the table after [y]
    and nothing after [n]. The table it writes is the sorted one, under the
    six headings. *)
Theorem report_decision d file_exists overwrite frames answers :
  (d = [] ->
   report d file_exists overwrite frames answers
   = (Nothing_to_report, answers)) /\
  (d <> [] -> file_exists = false \/ overwrite = true ->
   report d file_exists overwrite frames answers =
   (Written headings (Report.sort (Report.rows d)), answers)) /\
  (d <> [] -> file_exists = true -> overwrite = false ->
   forall skipped yn rest,
     answers = (skipped ++ yn :: rest)%list ->
     Forall (fun s => lower s <> "y" /\ lower s <> "n") skipped ->
     (List.length skipped < frames)%nat ->
     (lower yn = "y" ->
      report d file_exists overwrite frames answers =
      (Written headings (Report.sort (Report.rows d)), rest)) /\
     (lower yn = "n" ->
      report d file_exists overwrite frames answers = (Declined, rest))).
Proof.
  split; [now intros ->|]. split.
  - intros Hd H. destruct d; [congruence|]. unfold report.
    now destruct H as [-> | ->]; [|rewrite andb_false_r].
  - intros Hd -> -> skipped yn rest -> Hs Hf.
    destruct d; [congruence|]. unfold report. cbn [andb negb].
    replace frames
      with (List.length skipped + S (frames - S (List.length skipped)))%nat
      by lia.
    rewrite yesNo_skips by exact Hs. cbn [_yesNo].
    split; intros H; rewrite H; [reflexivity|].
    now destruct (String.eqb_spec (lower yn) "y"); [congruence|].
Qed.

Lemma report_decision_witness :
  report [("AA", Device S754_nan S754_nan "" "" 5000)] true true 9 ["n"] =
  (Written headings
     [Report.Row "AA" S754_nan S754_nan "AA" "Unknown" (Report.Str "Unknown")],
   ["n"]) /\
  report [("AA", Device S754_nan S754_nan "" "" 5000)] true false 9
    ["maybe"; "n"; "y"] = (Declined, ["y"]).
Proof.
  destruct (report_decision [("AA", Device S754_nan S754_nan "" "" 5000)]
              true true 9 ["n"]) as (_ & Hw & _).
  destruct (report_decision [("AA", Device S754_nan S754_nan "" "" 5000)]
              true false 9 ["maybe"; "n"; "y"]) as (_ & _ & Hask).
  split.
  - apply Hw; [discriminate | now right].
  - apply (Hask ltac:(discriminate) eq_refl eq_refl ["maybe"] "n" ["y"]).
    + reflexivity.
    + repeat constructor; discriminate.
    + simpl. lia.
    + reflexivity.
Defined.

(** The table has one row for every device, so as many rows as
    [summarise] counts, and there is no table exactly when there is no
    device. *)
Theorem one_row_per_device d :
  List.length (Report.sort (Report.rows d)) = List.length d /\
  (Report.report_rows d = None <-> d = []) /\
  (forall table, Report.report_rows d = Some table ->
                 List.length table = List.length d).
Proof.
  assert (H : List.length (Report.sort (Report.rows d)) = List.length d).
  { rewrite (Permutation_length (sort_perm _)). unfold Report.rows.
    rewrite rows_of_items by apply incl_refl.
    unfold keys. apply length_map. }
  split; [exact H|]. split.
  - destruct d; simpl; split; congruence.
  - intros table. destruct d; simpl; [discriminate|]. now intros [= <-].
Qed.

(** The table depends on the records only, not on the order in which the
    devices were first seen: two dicts with the same items, with keys that
    are pairwise different, give the same table. *)
Theorem table_does_not_depend_on_order d d' :
  NoDup (keys d) ->
  Permutation d d' ->
  Report.sort (Report.rows d) = Report.sort (Report.rows d').
Proof.
  intros Hn Hp.
  assert (Hn' : NoDup (keys d'))
    by (eapply Permutation_NoDup; [apply Permutation_map, Hp | exact Hn]).
  apply sorted_unique; try apply sort_sorted.
  - rewrite (sort_perm (Report.rows d)), (sort_perm (Report.rows d')).
    rewrite !rows_map by assumption. now apply Permutation_map.
  - intros x y Hx Hy Hxy Hyx.
    apply (Permutation_in _ (sort_perm _)), in_rows in Hx, Hy.
    destruct Hx as (k & r & _ & Hl & ->), Hy as (k' & r' & _ & Hl' & ->).
    pose proof (String.leb_antisym _ _ Hxy Hyx) as E.
    apply sort_key_mac in E. subst k'. congruence.
Qed.

Lemma table_does_not_depend_on_order_witness :
  Report.sort (Report.rows [("B", Device S754_nan S754_nan "" "" (-80));
                            ("A", Device S754_nan S754_nan "" "" (-9))]) =
  Report.sort (Report.rows [("A", Device S754_nan S754_nan "" "" (-9));
                            ("B", Device S754_nan S754_nan "" "" (-80))]).
Proof.
  apply table_does_not_depend_on_order.
  - repeat constructor; simpl; intuition discriminate.
  - apply perm_swap.
Defined.

(** ** The lines of a file *)

Module Reading.
Import PyStr PyNum Aggregator Driver Patterns.
Import Parser.

Lemma universal_newlines_no_cr_bounded n : forall s,
  (String.length s <= n)%nat ->
  contains_char carriage_return (universal_newlines s) = false.
Proof.
  induction n as [|n IH]; intros s Hs.
  - destruct s; [reflexivity | simpl in Hs; lia].
  - destruct s as [|c s]; [reflexivity|]. cbn [universal_newlines].
    cbn [String.length] in Hs.
    destruct (Ascii.eqb c carriage_return) eqn:Hc.
    + rewrite contains_char_cons. cbn [orb Ascii.eqb].
      destruct s as [|c' s]; [reflexivity|]. cbn [String.length] in Hs.
      destruct (Ascii.eqb c' newline); apply IH; cbn [String.length]; lia.
    + rewrite contains_char_cons, Ascii.eqb_sym, Hc. apply IH. lia.
Qed.

Lemma universal_newlines_no_cr s :
  contains_char carriage_return (universal_newlines s) = false.
Proof. now apply (universal_newlines_no_cr_bounded (String.length s)). Qed.

Lemma universal_newlines_fixed s :
  contains_char carriage_return s = false -> universal_newlines s = s.
Proof.
  induction s as [|c s IH]; [reflexivity|].
  rewrite contains_char_cons. intros H. apply orb_false_elim in H.
  destruct H as [Hc Hs]. cbn [universal_newlines].
  rewrite Ascii.eqb_sym, Hc. now rewrite IH.
Qed.

Lemma split_lines_join s : String.concat "" (split_lines s) = s.
Proof.
  induction s as [|c s IH]; [reflexivity|]. cbn [split_lines].
  destruct (Ascii.eqb c newline).
  - destruct (split_lines s) as [|l ls]; simpl in *; congruence.
  - destruct (split_lines s) as [|l [|l' ls]]; simpl in *; congruence.
Qed.

Lemma split_lines_shaped s : Forall line_shaped (split_lines s).
Proof.
  induction s as [|c s IH]; [constructor|]. cbn [split_lines].
  destruct (Ascii.eqb c newline) eqn:Hc.
  - constructor; [|exact IH]. exists "". split; [reflexivity|]. right.
    apply Ascii.eqb_eq in Hc. now subst.
  - destruct (split_lines s) as [|l ls].
    + repeat constructor. exists (String c ""). split.
      * rewrite contains_char_cons, Ascii.eqb_sym, Hc. reflexivity.
      * left. split; [reflexivity | discriminate].
    + inversion IH as [|? ? (body & Hb & Hl) Hls]; subst.
      constructor; [|exact Hls]. exists (String c body). split.
      * rewrite contains_char_cons, Ascii.eqb_sym, Hc. exact Hb.
      * destruct Hl as [[-> _] | ->];
          [left; split; [reflexivity | discriminate] | now right].
Qed.

Lemma split_lines_chars c s :
  contains_char c s = false ->
  Forall (fun l => contains_char c l = false) (split_lines s).
Proof.
  induction s as [|x s IH]; [constructor|].
  rewrite contains_char_cons. intros H. apply orb_false_elim in H.
  destruct H as [Hx Hs]. specialize (IH Hs). cbn [split_lines].
  destruct (Ascii.eqb x newline).
  - constructor; [|exact IH]. now rewrite contains_char_cons, Hx.
  - destruct (split_lines s) as [|l ls].
    + repeat constructor. now rewrite contains_char_cons, Hx.
    + inversion IH; subst. constructor; [|assumption].
      now rewrite contains_char_cons, Hx.
Qed.

Lemma rstrip_chars c s :
  contains_char c s = false -> contains_char c (rstrip s) = false.
Proof.
  induction s as [|x s IH]; [reflexivity|].
  rewrite contains_char_cons. intros H. apply orb_false_elim in H.
  destruct H as [Hx Hs]. specialize (IH Hs). cbn [rstrip].
  destruct (rstrip s) as [|y r].
  - destruct (isspace x); [reflexivity|].
    now rewrite contains_char_cons, Hx.
  - now rewrite contains_char_cons, Hx, IH.
Qed.

Lemma rstrip_app_space a b :
  all_space b = true -> rstrip (a ++ b) = rstrip a.
Proof.
  intros Hb. induction a as [|c a IH].
  - cbn [append]. now apply Strip.rstrip_empty.
  - cbn [append rstrip]. now rewrite IH.
Qed.

Lemma rstrip_shaped l :
  line_shaped l -> contains_char newline (rstrip l) = false.
Proof.
  intros (body & Hb & [[-> _] | ->]).
  - now apply rstrip_chars.
  - rewrite rstrip_app_space by reflexivity. now apply rstrip_chars.
Qed.

End Reading.

Import Reading.

(** The lines that the loop reads are the text cut after every newline,
    with every line end read as a newline: put together again they give
    the text back; no line is empty or holds a carriage return, and a
    newline is the last character of its line, so that once stripped no
    line holds a newline and the patterns match to the end of the line. A
    text with the line ends of another system gives the same lines and the
    same result. *)
Theorem lines_of_a_file text :
  String.concat "" (Parser.readlines text) = Parser.universal_newlines text /\
  Forall (fun l => line_shaped l /\
                   contains_char Parser.carriage_return l = false /\
                   contains_char Parser.newline (rstrip l) = false)
    (Parser.readlines text) /\
  Parser.readlines (Parser.universal_newlines text) = Parser.readlines text /\
  Parser.parse (Parser.universal_newlines text) = Parser.parse text.
Proof.
  unfold Parser.parse, Parser.readlines.
  rewrite (universal_newlines_fixed _ (universal_newlines_no_cr text)).
  split; [apply split_lines_join|]. split; [|now split].
  pose proof (split_lines_shaped (Parser.universal_newlines text)) as H1.
  pose proof (split_lines_chars _ _ (universal_newlines_no_cr text)) as H2.
  rewrite Forall_forall in *. intros l Hl.
  split; [now apply H1|]. split; [now apply H2|].
  apply rstrip_shaped. now apply H1.
Qed.

(** ** Reading the same sightings again *)

Module Again.
Import PyStr PyNum Aggregator Dict Merge FloatOrder Fields Keys Driver.

Lemma absorbed_noop c d : absorbed c d -> merge c d = (Returned tt, d).
Proof.
  unfold merge. rewrite add_cases.
  intros [Hm | (t & x & r & Ht & Hx & Hl & H1 & H2 & Hn & Hf & Hr)].
  - now rewrite Hm.
  - rewrite Ht, Hx, Hl. destruct (negb (truthy _)); [reflexivity|].
    cbn [merged]. f_equal. apply store_lookup. rewrite Hl. f_equal.
    apply device_eq.
    + now rewrite firstTime_update, H1.
    + now rewrite lastTime_update, H1, H2.
    + rewrite name_update. destruct (truthy (name r)) eqn:E; [reflexivity|].
      destruct Hn as [Hn | ->]; [discriminate|].
      apply truthy_false in E. now rewrite E.
    + rewrite manufacturer_update.
      destruct (truthy (manufacturer r)) eqn:E; [reflexivity|].
      destruct Hf as [Hf | ->]; [discriminate|].
      apply truthy_false in E. now rewrite E.
    + now rewrite rssi_update, Hr.
Qed.

Lemma absorbed_after c d :
  reachable d -> fst (merge c d) = Returned tt ->
  absorbed c (exec (merge c) d).
Proof.
  intros Hd. pose proof (reachable_ordered d Hd (normalise (c_mac c))) as Ho.
  unfold merge, exec, absorbed. rewrite add_cases.
  destruct (truthy (normalise (c_mac c))) eqn:Hm; cbn [negb];
    [|intros _; left; now apply truthy_false].
  destruct (py_float _) as [t|]; [|discriminate].
  destruct (rssi_of _) as [x|]; [|discriminate].
  intros _. right. exists t, x. eexists.
  split; [reflexivity|]. split; [reflexivity|]. cbn [snd].
  rewrite lookup_store_same. split; [reflexivity|].
  destruct (lookup (normalise (c_mac c)) d) as [r|]; cbn [merged].
  - specialize (Ho r eq_refl). pose proof (ordered_update t (c_name c)
      (c_manufacturer c) x r Ho) as Ho'.
    rewrite firstTime_update, lastTime_update_ordered, name_update,
      manufacturer_update, rssi_update by exact Ho.
    split; [destruct (flt t (firstTime r)) eqn:E;
            [apply flt_irrefl | exact E]|].
    split; [destruct (fgt t (lastTime r)) eqn:E;
            [rewrite fgt_flt; apply flt_irrefl | exact E]|].
    split; [destruct (truthy (name r)) eqn:E;
            [now left | destruct (c_name c); [now right | now left]]|].
    split; [destruct (truthy (manufacturer r)) eqn:E;
            [now left | destruct (c_manufacturer c); [now right | now left]]|].
    destruct (Z.ltb_spec (Z.abs x) (Z.abs (rssi r)));
      [apply Z.ltb_irrefl | now apply Z.ltb_ge].
  - cbn [firstTime lastTime name manufacturer rssi].
    split; [apply flt_irrefl|].
    split; [rewrite fgt_flt; apply flt_irrefl|].
    split; [destruct (c_name c); [now right | now left]|].
    split; [destruct (c_manufacturer c); [now right | now left]|].
    apply Z.ltb_irrefl.
Qed.

Lemma flt_trans x y z : flt x y = true -> flt y z = true -> flt x z = true.
Proof. intros H H'. apply flt_fle_trans with y; auto using flt_fle. Qed.

Lemma exec_merge_cases c d :
  exec (merge c) d = d \/
  exists t x,
    exec (merge c) d =
    store (normalise (c_mac c))
      (merged t (c_name c) (c_manufacturer c) x
         (lookup (normalise (c_mac c)) d)) d.
Proof.
  unfold merge, exec. rewrite add_cases.
  destruct (negb (truthy _)); [now left|].
  destruct (py_float _) as [t|]; [|now left].
  destruct (rssi_of _) as [x|]; [|now left].
  right. now exists t, x.
Qed.

Lemma absorbed_kept c c' d :
  reachable d -> absorbed c d -> absorbed c (exec (merge c') d).
Proof.
  intros Hd [Hm | (t & x & r & Ht & Hx & Hl & H1 & H2 & Hn & Hf & Hr)];
    [now left|].
  right. exists t, x.
  pose proof (reachable_ordered d Hd _ _ Hl) as Ho.
  destruct (exec_merge_cases c' d) as [-> | (t' & x' & ->)]; [now exists r|].
  destruct (String.eqb_spec (normalise (c_mac c)) (normalise (c_mac c')))
    as [E | Hne].
  - rewrite <- E, lookup_store_same, Hl. cbn [merged]. eexists.
    split; [exact Ht|]. split; [exact Hx|]. split; [reflexivity|].
    rewrite firstTime_update, lastTime_update_ordered, name_update,
      manufacturer_update, rssi_update by exact Ho.
    split; [|split; [|split; [|split]]].
    + destruct (flt t' (firstTime r)) eqn:E1; [|exact H1].
      destruct (flt t t') eqn:E2; [|reflexivity].
      rewrite <- H1. symmetry. now apply flt_trans with t'.
    + destruct (fgt t' (lastTime r)) eqn:E1; [|exact H2].
      rewrite fgt_flt in *. destruct (flt t' t) eqn:E2; [|reflexivity].
      rewrite <- H2. symmetry. now apply flt_trans with t'.
    + destruct (truthy (name r)) eqn:E1; [now left|].
      destruct Hn as [Hn | Hn]; [discriminate | now right].
    + destruct (truthy (manufacturer r)) eqn:E1; [now left|].
      destruct Hf as [Hf | Hf]; [discriminate | now right].
    + apply Z.ltb_ge in Hr. apply Z.ltb_ge.
      destruct (Z.ltb_spec (Z.abs x') (Z.abs (rssi r))); lia.
  - rewrite lookup_store_other by exact Hne. now exists r.
Qed.

Lemma absorbed_kept_all cs : forall c d,
  reachable d -> absorbed c d -> absorbed c (exec (merge_all cs) d).
Proof.
  induction cs as [|c' cs IH]; intros c d Hd H; [exact H|].
  unfold exec. cbn [merge_all]. unfold bind.
  pose proof (absorbed_kept c c' d Hd H) as H'.
  pose proof (reachable_merge d c' Hd) as Hd'. unfold exec in H', Hd'.
  destruct (merge c' d) as [[[]|e] d1]; [|exact H'].
  now apply IH.
Qed.

Lemma absorbed_all cs : forall d d1,
  reachable d -> merge_all cs d = (Returned tt, d1) ->
  Forall (fun c => absorbed c d1) cs.
Proof.
  induction cs as [|c cs IH]; intros d d1 Hd; [constructor|].
  cbn [merge_all]. unfold bind.
  pose proof (absorbed_after c d Hd) as Ha.
  pose proof (reachable_merge d c Hd) as Hd'. unfold exec in Ha, Hd'.
  destruct (merge c d) as [[[]|e] d2]; [|discriminate].
  intros H. constructor; [|now apply (IH d2)].
  pose proof (absorbed_kept_all cs c d2 Hd' (Ha eq_refl)) as Hk.
  unfold exec in Hk. now rewrite H in Hk.
Qed.

Lemma absorbed_run cs d :
  Forall (fun c => absorbed c d) cs -> merge_all cs d = (Returned tt, d).
Proof.
  induction 1 as [|c cs Hc _ IH]; [reflexivity|].
  cbn [merge_all]. unfold bind. now rewrite (absorbed_noop c d Hc).
Qed.

End Again.

Import Again.

(** Reading the same input a second time changes nothing: when a run of
    calls returns, the same run on the dict it left returns and leaves it
    as it is; so does parsing the same files again. *)
Theorem reading_again_changes_nothing d :
  reachable d ->
  (forall cs d1, merge_all cs d = (Returned tt, d1) ->
                 merge_all cs d1 = (Returned tt, d1)) /\
  (forall texts d1, parse_files texts d = (Returned tt, d1) ->
                    parse_files texts d1 = (Returned tt, d1)).
Proof.
  intros Hd.
  assert (H : forall cs d1, merge_all cs d = (Returned tt, d1) ->
                            merge_all cs d1 = (Returned tt, d1)).
  { intros cs d1 Hrun. apply absorbed_run. now apply absorbed_all with d. }
  split; [exact H|]. intros texts d1.
  rewrite !Files.parse_files_candidates. apply H.
Qed.

Lemma reading_again_changes_nothing_witness :
  exists d1,
    merge_all [Candidate "2.5" "aa" "" "" "-70";
               Candidate "1.5" "bb" "Bob" "" "";
               Candidate "0.5" "AA" "Alice" "Acme" "-60"] [] = (Returned tt, d1)
    /\
    merge_all [Candidate "2.5" "aa" "" "" "-70";
               Candidate "1.5" "bb" "Bob" "" "";
               Candidate "0.5" "AA" "Alice" "Acme" "-60"] d1
    = (Returned tt, d1).
Proof.
  eexists. split; [reflexivity|].
  apply (proj1 (reading_again_changes_nothing [] reachable_init)).
  reflexivity.
Defined.

(** ** From the sightings to the row *)


